(** * Keep Me Focus: the rule store and the enforcement engine

    A shallow embedding of [RulesService] (services/rulesService.ts) and of
    the pattern matchers (utils/siteRulesMatcher.ts), with the properties of
    the specification stated over it.

    Numbers are ECMAScript numbers, that is IEEE 754 binary64 values: they
    are modelled by Rocq's primitive [float], whose operations are the
    processor's.  Strings are sequences of code units.  The browser (clock,
    synchronised storage, message passing, the regular expression engine)
    is the environment of the service: its answers are inputs of the
    model, and every call the service makes to it is recorded in a trace.

    One activation of the service (the handler of a navigation event, one
    run of a timer callback, one call from the options page) is modelled
    as one step: the activations of a page context run on a single thread
    and are taken one after the other.  The rule objects of the cache are
    told apart by their position in [this.rules]; a method that receives
    one of them and updates it in place is given that position. *)

From Stdlib Require Import PrimFloat String List Bool Arith Lia.
From Stdlib Require Import ZArith DecimalString Permutation.
From stdpp Require Import base list.
Import ListNotations.

Local Open Scope string_scope.
Local Open Scope list_scope.

(** ** Data model (types/SiteRule.ts) *)

Inductive SiteRuleMatchType : Set :=
| EqualTo | StartsWith | EndsWith | Contains | Regex
| NotEqualTo | NotStartsWith | NotEndsWith | NotContains | NotRegex.

Inductive SiteRuleActionType : Set := Allow | Block | Limit.

(** The fields of an action whose [type] is [Limit]. *)
Record LimitState : Set := mkLimitState {
  allowedMinutes : float;
  resetAfterMinutes : float;
  delayMinutes : float;
  usedMinutes : float;
  lastResetAt : float;
  lastUsedAt : float
}.

Inductive SiteRuleAction : Set :=
| AllowAction
| BlockAction
| LimitAction (limit : LimitState).

Definition action_type (a : SiteRuleAction) : SiteRuleActionType :=
  match a with
  | AllowAction => Allow
  | BlockAction => Block
  | LimitAction _ => Limit
  end.

Record SiteRule : Set := mkSiteRule {
  id : string;
  title : string;
  pattern : string;
  matchType : SiteRuleMatchType;
  action : SiteRuleAction;
  enabled : bool
}.

(** ** Completions: a call returns a value or throws *)

Inductive Exception : Set :=
| SyntaxError (source : string).

Inductive Completion (A : Type) : Type :=
| Normal (a : A)
| Throw (e : Exception).
Arguments Normal {A} a.
Arguments Throw {A} e.

Definition Completion_map {A B : Type} (f : A -> B) (c : Completion A)
  : Completion B :=
  match c with
  | Normal a => Normal (f a)
  | Throw e => Throw e
  end.

(** ** String primitives used by the matchers *)

(** [url === pattern] *)
Definition strictEquals (url pattern : string) : bool := String.eqb url pattern.

(** [url !== pattern] *)
Definition strictNotEquals (url pattern : string) : bool :=
  negb (String.eqb url pattern).

(** [url.startsWith(pattern)] *)
Definition startsWith (url pattern : string) : bool := String.prefix pattern url.

(** [url.endsWith(pattern)]: the last [pattern.length] code units of [url]
    are compared with [pattern]; false when [pattern] is longer. *)
Definition endsWith (url pattern : string) : bool :=
  let n := String.length url in
  let k := String.length pattern in
  if (k <=? n)%nat then String.eqb (String.substring (n - k) k url) pattern
  else false.

(** [url.includes(pattern)]: [pattern] occurs at some position of [url]. *)
Fixpoint includes (url pattern : string) : bool :=
  String.prefix pattern url ||
  match url with
  | EmptyString => false
  | String _ rest => includes rest pattern
  end.

(** ** The redirect contract (the address built by [redirectToAlertPage]) *)

Record AlertParams : Set := mkAlertParams {
  type : string;
  currentUrl : string;
  ruleTitle : string;
  allowedAt : option float
}.

(** A query value before [encodeURIComponent] is applied to it. *)
Inductive QueryValue : Set :=
| QString (s : string)
| QNumber (x : float).

(** The address of the notice page: [getURL('html/alert.html')] followed by
    the query parameters, in the order they are appended. *)
Record AlertUrl : Set := mkAlertUrl {
  alert_page : string;
  alert_query : list (string * QueryValue)
}.

(** Truthiness of a number: every number but [+0], [-0] and [NaN]. *)
Definition truthy (x : float) : bool :=
  negb (PrimFloat.eqb x 0) && PrimFloat.eqb x x.

(** First value bound to [key] in a query. *)
Fixpoint query_get (key : string) (q : list (string * QueryValue))
  : option QueryValue :=
  match q with
  | [] => None
  | (k, v) :: q' => if String.eqb k key then Some v else query_get key q'
  end.

(** ** The page context and its environment *)

(** A timer created by [setInterval] in [applyLimitRule]: its handle and
    the variables its callback closes over ([rule.id], [rule.title] and
    [currentUrl]). *)
Record Monitor : Set := mkMonitor {
  intervalId : nat;
  monitoredId : string;
  monitoredTitle : string;
  monitoredUrl : string
}.

(** Calls made to the browser, in the order they are made. *)
Inductive Effect : Set :=
| StorageGet
| StorageSet (saved : list SiteRule)
| SendMessage (request : string)
| ConsoleLog (message : string)
| ConsoleError (message : string)
| SetLocation (url : AlertUrl).

Record World : Set := mkWorld {
  (** [this.rules], the in-memory cache *)
  rules : list SiteRule;
  (** [this.rulesLoaded] *)
  rulesLoaded : bool;
  (** [this.limitRuleUpdateIntervalRunning] *)
  limitRuleUpdateIntervalRunning : bool;
  (** the timers created by [setInterval] and not yet cleared *)
  intervals : list Monitor;
  (** the handle the next [setInterval] returns *)
  nextIntervalId : nat;
  (** the value stored under [STORAGE_KEYS.SITE_RULES], if any *)
  storage : option (list SiteRule);
  (** the calls made so far, oldest first *)
  trace : list Effect
}.

(** What the browser answers during one activation of the service (one
    navigation event, one timer tick or one call from the options page).
    Each of these is asked at most once per activation, except the clock,
    which [applyLimitRule] reads a second time at the delay gate. *)
Record Env : Set := mkEnv {
  (** [window.location.href] *)
  href : string;
  (** whether [browser.storage.sync.get] resolves *)
  sync_get_ok : bool;
  (** whether [browser.storage.sync.set] resolves *)
  sync_set_ok : bool;
  (** [Date.now()] as read by [updateLimitRuleUsage] *)
  usage_now : float;
  (** [uptimeSec] in the answer to the [getUptime] message *)
  uptimeSec : float;
  (** [Date.now()] as read at the delay gate of [applyLimitRule] *)
  gate_now : float
}.

Definition set_rules (rs : list SiteRule) (w : World) : World :=
  mkWorld rs (rulesLoaded w) (limitRuleUpdateIntervalRunning w) (intervals w)
          (nextIntervalId w) (storage w) (trace w).

Definition set_rulesLoaded (b : bool) (w : World) : World :=
  mkWorld (rules w) b (limitRuleUpdateIntervalRunning w) (intervals w)
          (nextIntervalId w) (storage w) (trace w).

Definition set_limitRuleUpdateIntervalRunning (b : bool) (w : World) : World :=
  mkWorld (rules w) (rulesLoaded w) b (intervals w)
          (nextIntervalId w) (storage w) (trace w).

Definition set_intervals (ms : list Monitor) (w : World) : World :=
  mkWorld (rules w) (rulesLoaded w) (limitRuleUpdateIntervalRunning w) ms
          (nextIntervalId w) (storage w) (trace w).

Definition set_nextIntervalId (n : nat) (w : World) : World :=
  mkWorld (rules w) (rulesLoaded w) (limitRuleUpdateIntervalRunning w)
          (intervals w) n (storage w) (trace w).

Definition set_storage (s : option (list SiteRule)) (w : World) : World :=
  mkWorld (rules w) (rulesLoaded w) (limitRuleUpdateIntervalRunning w)
          (intervals w) (nextIntervalId w) s (trace w).

Definition emit (e : Effect) (w : World) : World :=
  mkWorld (rules w) (rulesLoaded w) (limitRuleUpdateIntervalRunning w)
          (intervals w) (nextIntervalId w) (storage w) (trace w ++ [e]).

(** ** The monad of the service: environment, state and exceptions *)

Definition M (A : Type) : Type := Env -> World -> Completion A * World.

Definition ret {A : Type} (a : A) : M A := fun _ w => (Normal a, w).

Definition bind {A B : Type} (c : M A) (k : A -> M B) : M B :=
  fun env w =>
    match c env w with
    | (Normal a, w') => k a env w'
    | (Throw e, w') => (Throw e, w')
    end.

Definition lift {A : Type} (c : Completion A) : M A := fun _ w => (c, w).
Definition gets {A : Type} (f : World -> A) : M A := fun _ w => (Normal (f w), w).
Definition asks {A : Type} (f : Env -> A) : M A := fun env w => (Normal (f env), w).
Definition modify (f : World -> World) : M unit := fun _ w => (Normal tt, f w).

Declare Scope service_scope.
Delimit Scope service_scope with service.
Notation "x <- c ;; k" := (bind c (fun x => k))
  (at level 100, c at next level, right associativity) : service_scope.
Notation "c ;; k" := (bind c (fun _ => k))
  (at level 100, right associativity) : service_scope.

(** ** Array primitives *)

(** [array.findIndex(p)], with [None] for [-1]. *)
Fixpoint findIndex {A : Type} (p : A -> bool) (l : list A) : option nat :=
  match l with
  | [] => None
  | x :: l' => if p x then Some 0 else option_map S (findIndex p l')
  end.

(** The fields an [updates] argument of [updateRule] may carry. *)
Record RuleUpdates : Set := mkRuleUpdates {
  new_title : option string;
  new_pattern : option string;
  new_matchType : option SiteRuleMatchType;
  new_action : option SiteRuleAction;
  new_enabled : option bool
}.

(** [{ ...rule, ...updates }] *)
Definition spread (rule : SiteRule) (updates : RuleUpdates) : SiteRule :=
  {| id := id rule;
     title := default (title rule) (new_title updates);
     pattern := default (pattern rule) (new_pattern updates);
     matchType := default (matchType rule) (new_matchType updates);
     action := default (action rule) (new_action updates);
     enabled := default (enabled rule) (new_enabled updates) |}.

(** The statements of [updateLimitRuleUsage] on the fields of the action,
    [currentTime] being the value [Date.now()] returned. *)
Definition accountUsage (currentTime : float) (a : LimitState) : LimitState :=
  let a1 :=
    if (currentTime - lastUsedAt a <=? 30000)%float
    then mkLimitState (allowedMinutes a) (resetAfterMinutes a) (delayMinutes a)
           (usedMinutes a + (currentTime - lastUsedAt a) / 60000)%float
           (lastResetAt a) (lastUsedAt a)
    else a in
  let a2 :=
    if (resetAfterMinutes a1 * 60 * 1000 <=? currentTime - lastResetAt a1)%float
    then mkLimitState (allowedMinutes a1) (resetAfterMinutes a1) (delayMinutes a1)
           0%float currentTime (lastUsedAt a1)
    else a1 in
  mkLimitState (allowedMinutes a2) (resetAfterMinutes a2) (delayMinutes a2)
    (usedMinutes a2) (lastResetAt a2) currentTime.

(** A rule object after [updateLimitRuleUsage] has updated the fields [a]
    of its action; the other properties of the object are untouched. *)
Definition accounted (currentTime : float) (rule : SiteRule) (a : LimitState)
  : SiteRule :=
  mkSiteRule (id rule) (title rule) (pattern rule) (matchType rule)
    (LimitAction (accountUsage currentTime a)) (enabled rule).

(** The rule object at position [i] of [this.rules] together with the
    fields of its action, when that action is a [Limit]. *)
Definition limitRuleAt (i : nat) (w : World) : option (SiteRule * LimitState) :=
  match rules w !! i with
  | Some rule =>
      match action rule with
      | LimitAction a => Some (rule, a)
      | _ => None
      end
  | None => None
  end.

(** The address [redirectToAlertPage] navigates to. *)
Definition alertUrl (p : AlertParams) : AlertUrl :=
  {| alert_page := "html/alert.html";
     alert_query :=
       [("type", QString (type p));
        ("currentUrl", QString (currentUrl p));
        ("ruleTitle", QString (ruleTitle p))]
       ++ match allowedAt p with
          | Some t => if truthy t then [("allowedAt", QNumber t)] else []
          | None => []
          end |}.

Section Service.

(** [RegExp_test pattern url] is [new RegExp(pattern).test(url)]: the
    constructor throws a [SyntaxError] when [pattern] is not a regular
    expression.  A fresh object without flags is built at each call, so
    the result depends on the two strings only. *)
Variable RegExp_test : string -> string -> Completion bool.

(** utils/siteRulesMatcher.ts: one matcher per match type. *)
Definition siteRulesMatcher (m : SiteRuleMatchType) (url pattern : string)
  : Completion bool :=
  match m with
  | EqualTo => Normal (strictEquals url pattern)
  | StartsWith => Normal (startsWith url pattern)
  | EndsWith => Normal (endsWith url pattern)
  | Contains => Normal (includes url pattern)
  | Regex => RegExp_test pattern url
  | NotEqualTo => Normal (strictNotEquals url pattern)
  | NotStartsWith => Normal (negb (startsWith url pattern))
  | NotEndsWith => Normal (negb (endsWith url pattern))
  | NotContains => Normal (negb (includes url pattern))
  | NotRegex => Completion_map negb (RegExp_test pattern url)
  end.

(** [RulesService.ruleMatchWithUrl].  The table has an entry for each of
    the ten match types, so the lookup always finds a matcher and the
    warning branch is not reached. *)
Definition ruleMatchWithUrl (rule : SiteRule) (url : string)
  : Completion bool :=
  siteRulesMatcher (matchType rule) url (pattern rule).

(** [this.rules.find(rule => rule.enabled && this.ruleMatchWithUrl(rule,
    url))], scanning from position [i]: the position and the object found.
    The matcher of a disabled rule is not called; an exception thrown by
    a matcher ends the scan. *)
Fixpoint findMatch (url : string) (rs : list SiteRule) (i : nat)
  : Completion (option (nat * SiteRule)) :=
  match rs with
  | [] => Normal None
  | rule :: rest =>
      match (if enabled rule then ruleMatchWithUrl rule url
             else Normal false) with
      | Normal true => Normal (Some (i, rule))
      | Normal false => findMatch url rest (S i)
      | Throw e => Throw e
      end
  end.

Local Open Scope service_scope.

Definition loadRules : M (list SiteRule) :=
  modify (set_rulesLoaded true) ;;
  modify (emit StorageGet) ;;
  ok <- asks sync_get_ok ;;
  if ok : bool then
    result <- gets storage ;;
    modify (set_rules (default [] result)) ;;
    gets rules
  else
    modify (emit (ConsoleError "Error loading rules:")) ;;
    modify (set_rules []) ;;
    gets rules.

Definition saveRules : M unit :=
  rs <- gets rules ;;
  modify (emit (StorageSet rs)) ;;
  ok <- asks sync_set_ok ;;
  if ok : bool then modify (set_storage (Some rs))
  else modify (emit (ConsoleError "Error saving rules:")).

Definition getRules : M (list SiteRule) := gets rules.

Definition updateRule (ruleId : string) (updates : RuleUpdates)
  : M (option SiteRule) :=
  rs <- gets rules ;;
  match findIndex (fun r => String.eqb (id r) ruleId) rs with
  | None => ret None
  | Some index =>
      match rs !! index with
      | None => ret None
      | Some rule =>
          modify (set_rules (<[index := spread rule updates]> rs)) ;;
          saveRules ;;
          rs' <- gets rules ;;
          ret (rs' !! index)
      end
  end.

Definition deleteRule (ruleId : string) : M bool :=
  rs <- gets rules ;;
  let initialLength := length rs in
  modify (set_rules
            (List.filter (fun r => negb (String.eqb (id r) ruleId)) rs)) ;;
  rs' <- gets rules ;;
  if negb (length rs' =? initialLength)%nat then saveRules ;; ret true
  else ret false.

Definition toggleRule (ruleId : string) : M (option SiteRule) :=
  rs <- gets rules ;;
  match List.find (fun r => String.eqb (id r) ruleId) rs with
  | None => ret None
  | Some rule =>
      updateRule ruleId
        (mkRuleUpdates None None None None (Some (negb (enabled rule))))
  end.

(** The two loops of [reorderRules], on the array they fill. *)
Definition addInNewOrder (rs : list SiteRule) (newOrder : list string)
  : list SiteRule :=
  fold_left
    (fun reorderedRules ruleId =>
       match List.find (fun r => String.eqb (id r) ruleId) rs with
       | Some rule => reorderedRules ++ [rule]
       | None => reorderedRules
       end)
    newOrder [].

Definition addMissing (rs reorderedRules : list SiteRule) : list SiteRule :=
  fold_left
    (fun reorderedRules rule =>
       match List.find (fun r => String.eqb (id r) (id rule)) reorderedRules with
       | Some _ => reorderedRules
       | None => reorderedRules ++ [rule]
       end)
    rs reorderedRules.

Definition reorderRules (newOrder : list string) : M unit :=
  rs <- gets rules ;;
  let reorderedRules := addMissing rs (addInNewOrder rs newOrder) in
  modify (set_rules reorderedRules) ;;
  saveRules.

Definition getRuleById (ruleId : string) : M (option SiteRule) :=
  rs <- gets rules ;;
  ret (List.find (fun r => String.eqb (id r) ruleId) rs).

Definition redirectToAlertPage (p : AlertParams) : M unit :=
  modify (emit (SetLocation (alertUrl p))).

Definition applyBlockRule (rule : SiteRule) (currentUrl : string) : M unit :=
  redirectToAlertPage (mkAlertParams "block" currentUrl (title rule) None).

(** [updateLimitRuleUsage(rule)], where [rule] is the object at position
    [i] of [this.rules]: its action is updated in place, so the array
    that [saveRules] writes holds the new values. *)
Definition updateLimitRuleUsage (i : nat) : M unit :=
  found <- gets (limitRuleAt i) ;;
  match found with
  | Some (rule, a) =>
      currentTime <- asks usage_now ;;
      modify (fun w =>
                set_rules (<[i := accounted currentTime rule a]> (rules w)) w) ;;
      saveRules
  | None => ret tt
  end.

Definition clearInterval (h : nat) : M unit :=
  modify (fun w =>
            set_intervals
              (List.filter (fun m => negb (intervalId m =? h)%nat) (intervals w))
              w).

(** [setInterval(callback, 5000)]: the callback is identified by the
    variables it closes over. *)
Definition setInterval (ruleId ruleTitle currentUrl : string) : M nat :=
  h <- gets nextIntervalId ;;
  modify (fun w =>
            set_intervals
              (intervals w ++ [mkMonitor h ruleId ruleTitle currentUrl]) w) ;;
  modify (set_nextIntervalId (S h)) ;;
  ret h.

(** The callback given to [setInterval] by [applyLimitRule].
    [freshedRule] is [this.getRuleById(rule.id)], the first rule of the
    reloaded cache with the id of the monitored rule, and [j] is its
    position. *)
Definition monitorCallback (m : Monitor) : M unit :=
  loadRules ;;
  rs <- gets rules ;;
  match findIndex (fun r => String.eqb (id r) (monitoredId m)) rs with
  | None => clearInterval (intervalId m)
  | Some j =>
      match rs !! j with
      | None => clearInterval (intervalId m)
      | Some freshedRule =>
          if negb (enabled freshedRule) then clearInterval (intervalId m)
          else
            matches <- lift (ruleMatchWithUrl freshedRule (monitoredUrl m)) ;;
            if negb matches then clearInterval (intervalId m)
            else
              match action freshedRule with
              | LimitAction a =>
                  if (allowedMinutes a <=? usedMinutes a)%float then
                    clearInterval (intervalId m) ;;
                    redirectToAlertPage
                      (mkAlertParams "limit" (monitoredUrl m) (monitoredTitle m)
                         (Some (lastResetAt a
                                + resetAfterMinutes a * 60 * 1000)%float))
                  else updateLimitRuleUsage j
              | _ => clearInterval (intervalId m)
              end
      end
  end.

(** [applyLimitRule(rule, currentUrl)], where [rule] is the object at
    position [i] of [this.rules]. *)
Definition applyLimitRule (i : nat) (currentUrl : string) : M unit :=
  found <- gets (limitRuleAt i) ;;
  match found with
  | None => ret tt
  | Some _ =>
      updateLimitRuleUsage i ;;
      found' <- gets (limitRuleAt i) ;;
      match found' with
      | None => ret tt
      | Some (rule, a) =>
          let delaySeconds := (delayMinutes a * 60)%float in
          modify (emit (SendMessage "getUptime")) ;;
          uptime <- asks uptimeSec ;;
          if (uptime <? delaySeconds)%float then
            now <- asks gate_now ;;
            redirectToAlertPage
              (mkAlertParams "limit" currentUrl (title rule)
                 (Some (now + (delaySeconds - uptime) * 1000)%float))
          else if (allowedMinutes a <=? usedMinutes a)%float then
            redirectToAlertPage
              (mkAlertParams "limit" currentUrl (title rule)
                 (Some (lastResetAt a + resetAfterMinutes a * 60 * 1000)%float))
          else
            running <- gets limitRuleUpdateIntervalRunning ;;
            if negb running then
              modify (set_limitRuleUpdateIntervalRunning true) ;;
              setInterval (id rule) (title rule) currentUrl ;;
              ret tt
            else ret tt
      end
  end.

(** The [switch] of [applyRule] on the action of the rule found, which is
    the object at position [i] of [this.rules]. *)
Definition applyMatchedRule (i : nat) (rule : SiteRule) (currentUrl : string)
  : M unit :=
  match action_type (action rule) with
  | Allow =>
      modify (emit (ConsoleLog ("Allowing access to " ++ pattern rule)%string)) ;;
      ret tt
  | Block => applyBlockRule rule currentUrl
  | Limit => applyLimitRule i currentUrl
  end.

Definition applyRule : M unit :=
  loaded <- gets rulesLoaded ;;
  (if negb loaded then loadRules ;; ret tt else ret tt) ;;
  currentUrl <- asks href ;;
  rs <- gets rules ;;
  matchedRules <- lift (findMatch currentUrl rs 0) ;;
  match matchedRules with
  | Some (i, rule) => applyMatchedRule i rule currentUrl
  | None => ret tt
  end.

(** ** The life of a page context *)

(** What can happen to a page context: the content script receives a
    [urlChanged] event and calls [applyRule]; a timer fires and its
    callback runs; another context (the options page, another tab)
    writes the stored rules.  Each activation runs under the answers
    [env] of the browser; an exception it throws is not caught and
    leaves the state as it was when thrown. *)
Inductive Event : Set :=
| UrlChanged (env : Env)
| IntervalFired (h : nat) (env : Env)
| StorageWritten (stored : option (list SiteRule)).

Definition step (w : World) (e : Event) : World :=
  match e with
  | UrlChanged env => snd (applyRule env w)
  | IntervalFired h env =>
      match List.find (fun m => (intervalId m =? h)%nat) (intervals w) with
      | Some m => snd (monitorCallback m env w)
      | None => w
      end
  | StorageWritten stored => set_storage stored w
  end.

Definition run (w : World) (events : list Event) : World :=
  fold_left step events w.

End Service.

(** A page context whose content script has just been injected. *)
Definition initialWorld (stored : option (list SiteRule)) : World :=
  mkWorld [] false false [] 0 stored [].

(** A fragment of the regular expression engine, for the examples: the
    pattern ["("], a group that is never closed, is rejected by the
    constructor with a [SyntaxError]; any other pattern is searched as a
    substring, which is what the engine does for a pattern made of
    characters that stand for themselves. *)
Definition literal_RegExp_test (pattern url : string) : Completion bool :=
  if String.eqb pattern "(" then Throw (SyntaxError pattern)
  else Normal (includes url pattern).

(** ** The order a reordering asks for *)

(** The stored rule with the given id. *)
Definition ruleWithId (rs : list SiteRule) (ruleId : string) : option SiteRule :=
  List.find (fun r => String.eqb (id r) ruleId) rs.

(** The stored rules named by [newOrder], in the order of [newOrder]; an
    id that names no stored rule contributes nothing. *)
Definition listedInOrder (rs : list SiteRule) (newOrder : list string)
  : list SiteRule :=
  flat_map (fun ruleId => match ruleWithId rs ruleId with
                          | Some rule => [rule]
                          | None => []
                          end) newOrder.

(** The stored rules whose id does not occur in [newOrder], in their
    stored order. *)
Definition missingFrom (newOrder : list string) (rs : list SiteRule)
  : list SiteRule :=
  List.filter (fun r => negb (existsb (String.eqb (id r)) newOrder)) rs.

(** ** Selection of the rule to enforce, as the specification words it *)




(** The state in which [applyRule] looks for a rule: the rules are loaded
    if they never were. *)
Definition ensureLoaded (env : Env) (w : World) : World :=
  if rulesLoaded w then w else snd (loadRules env w).


(** ** Sample rules, addresses and answers of the browser *)

Definition shortsUrl : string := "https://youtube.com/shorts/xyz".

(** The preset [block-youtube-shorts], stored and enabled. *)
Definition blockShortsRule : SiteRule :=
  mkSiteRule "r2" "Block YouTube Shorts" "youtube.com/shorts" Contains
    BlockAction true.


(** A context whose cache holds [rs], already loaded from the storage. *)
Definition loadedWorld (rs : list SiteRule) : World :=
  mkWorld rs true false [] 0 (Some rs) [].

(** The browser at time [now], [uptime] seconds after it started, showing
    the address [url], its storage working. *)
Definition browserAt (url : string) (now uptime : float) : Env :=
  mkEnv url true true now uptime now.



(** ** The monitoring loop, as the specification words it *)

(** The timers left when the callback of [m] has cleared its own. *)
Definition withoutMonitor (m : Monitor) (ms : list Monitor) : list Monitor :=
  List.filter (fun m' => negb (intervalId m' =? intervalId m)%nat) ms.


(** A rule limiting YouTube Shorts to ten minutes per hour. *)
Definition limitShortsRule (created : float) : SiteRule :=
  mkSiteRule "r4" "Limit Shorts" "youtube.com/shorts" Contains
    (LimitAction (mkLimitState 10 60 0 0 created created)) true.

(** The same rule after the options page has saved an edit of its pattern
    and match type: [updateRule] keeps the id, and the form gives the
    action fresh usage fields. *)
Definition editedLimitRule (m : SiteRuleMatchType) (newPattern : string)
  (edited : float) : SiteRule :=
  mkSiteRule "r4" "Limit Shorts" newPattern m
    (LimitAction (mkLimitState 10 60 0 0 edited 0)) true.

(** The monitor [applyLimitRule] starts for [limitShortsRule] on
    [shortsUrl]. *)
Definition shortsMonitor : Monitor := mkMonitor 0 "r4" "Limit Shorts" shortsUrl.


(** ** A session on YouTube *)

Definition watchUrl : string := "https://youtube.com/watch?v=abc".

(** The tab opens a Shorts page one second after the rule was created,
    the browser being up for an hour. *)
Definition firstVisit : Event :=
  UrlChanged (browserAt shortsUrl 1700000001000 3600).

(** The user edits the pattern of the rule in the options page. *)
Definition patternEdited : Event :=
  StorageWritten (Some [editedLimitRule Contains "youtube.com/watch" 1700000003000]).

(** Five seconds after the first visit the timer of the monitor fires. *)
Definition firstTick : Event :=
  IntervalFired 0 (browserAt shortsUrl 1700000006000 3605).

(** The tab then moves to a video page, which the edited rule limits. *)
Definition secondVisit : Event :=
  UrlChanged (browserAt watchUrl 1700000020000 3619).

(** At most one timer is live, and the flag is set whenever one is. *)
Definition oneMonitor (w : World) : Prop :=
  length (intervals w) <= 1
  /\ (intervals w <> [] -> limitRuleUpdateIntervalRunning w = true).

(** The rule [unclosedGroupRule], switched off. *)
Definition disabledGroupRule : SiteRule :=
  mkSiteRule "r1" "Groups" "(" Regex BlockAction false.

(** Three rules with the ids [a], [b] and [c]. *)
Definition ruleA : SiteRule :=
  mkSiteRule "a" "Block Facebook" "facebook.com" Contains BlockAction true.
Definition ruleB : SiteRule :=
  mkSiteRule "b" "Block Instagram" "instagram.com" Contains BlockAction true.
Definition ruleC : SiteRule :=
  mkSiteRule "c" "Block TikTok" "tiktok.com" Contains BlockAction true.

(** The browser of [browserAt] when its synchronised storage is out of
    reach: reads and writes fail. *)
Definition offlineBrowserAt (url : string) (now uptime : float) : Env :=
  mkEnv url false false now uptime now.

(** ** Rule creation (RulesService.addRule) *)

(** [Omit<SiteRule, 'id'>]: what the options page hands to [addRule]. *)
Record RuleData : Set := mkRuleData {
  data_title : string;
  data_pattern : string;
  data_matchType : SiteRuleMatchType;
  data_action : SiteRuleAction;
  data_enabled : bool
}.

(** [{ id: this.generateId(), ...ruleData }], [generatedId] being the
    string [generateId] returned (a rendering of the clock followed by
    random digits). *)
Definition newRuleFrom (generatedId : string) (ruleData : RuleData) : SiteRule :=
  mkSiteRule generatedId (data_title ruleData) (data_pattern ruleData)
    (data_matchType ruleData) (data_action ruleData) (data_enabled ruleData).

Definition addRule (generatedId : string) (ruleData : RuleData) : M SiteRule :=
  (modify (fun w => set_rules (rules w ++ [newRuleFrom generatedId ruleData]) w) ;;
   saveRules ;;
   ret (newRuleFrom generatedId ruleData))%service.

(** ** The scheduler (services/schedulerService.ts) *)

Section Scheduler.

(** A task reads the environment [E] of the tick, updates the state [St]
    of the page, and returns or throws. *)
Variables E St : Type.

Definition Task : Type := E -> St -> Completion unit * St.

(** [SchedulerService]: the queue of tasks ([schedulerInterval] is the
    constant 1000). *)
Record SchedulerService : Type := mkSchedulerService {
  tasks : list Task
}.

(** [addTask(task)]: [this.tasks.push(task)], which returns the new length
    of the array. *)
Definition addTask (task : Task) (scheduler : SchedulerService)
  : nat * SchedulerService :=
  (length (tasks scheduler ++ [task]), mkSchedulerService (tasks scheduler ++ [task])).

(** The loop of the callback [run] gives to [setInterval]: every task is
    called in turn; an exception is caught and logged, and the loop goes
    on.  The result holds the exceptions logged and the last state. *)
Fixpoint runTasks (ts : list Task) (env : E) (s : St) : list Exception * St :=
  match ts with
  | [] => ([], s)
  | task :: rest =>
      match task env s with
      | (Normal _, s') => runTasks rest env s'
      | (Throw e, s') =>
          (e :: fst (runTasks rest env s'), snd (runTasks rest env s'))
      end
  end.

(** One firing of the interval. *)
Definition schedulerTick (scheduler : SchedulerService) (env : E) (s : St)
  : list Exception * St :=
  runTasks (tasks scheduler) env s.

End Scheduler.

Arguments mkSchedulerService {E St} tasks.
Arguments tasks {E St} s.
Arguments addTask {E St} task scheduler.
Arguments runTasks {E St} ts env s.
Arguments schedulerTick {E St} scheduler env s.

(** ** Detection of address changes (services/detectUrlChangeService.ts) *)

(** The task [DetectUrlChangeService.run] registers, on its closure
    variable [lastUrl]: the new value of the variable and the detail of
    the [urlChanged] event it dispatches, if it dispatches one. *)
Definition detectUrlChange (currentUrl : string) (lastUrl : option string)
  : option string * option string :=
  match lastUrl with
  | Some last =>
      if String.eqb currentUrl last then (lastUrl, None)
      else (Some currentUrl, Some currentUrl)
  | None => (Some currentUrl, Some currentUrl)
  end.

(** The addresses of the events dispatched while the task observes the
    addresses [observed], one per tick. *)
Fixpoint dispatched (lastUrl : option string) (observed : list string)
  : list string :=
  match observed with
  | [] => []
  | currentUrl :: rest =>
      match detectUrlChange currentUrl lastUrl with
      | (lastUrl', Some url) => url :: dispatched lastUrl' rest
      | (lastUrl', None) => dispatched lastUrl' rest
      end
  end.

(** ** The content script (scripts/content.ts) *)

(** A page: the closure variable of the detection task and the state of
    the rules service. *)
Record Page : Set := mkPage {
  lastUrl : option string;
  context : World
}.

(** The detection task together with the listener of [urlChanged] the
    content script installs, which calls [applyRule].  The task is an
    [async] function: it never throws to the scheduler, and an exception
    of [applyRule] is left unhandled. *)
Definition contentTask (RegExp_test : string -> string -> Completion bool)
  : Task Env Page :=
  fun env page =>
    match detectUrlChange (href env) (lastUrl page) with
    | (lastUrl', Some _) =>
        (Normal tt,
         mkPage lastUrl' (snd (applyRule RegExp_test env (context page))))
    | (lastUrl', None) => (Normal tt, mkPage lastUrl' (context page))
    end.

(** The scheduler of a page once the content script has run. *)
Definition contentScheduler (RegExp_test : string -> string -> Completion bool)
  : SchedulerService Env Page :=
  snd (addTask (contentTask RegExp_test) (mkSchedulerService [])).

(** The page after the ticks whose environments are [ticks]. *)
Definition runPage (RegExp_test : string -> string -> Completion bool)
  (page : Page) (ticks : list Env) : Page :=
  fold_left
    (fun page env => snd (schedulerTick (contentScheduler RegExp_test) env page))
    ticks page.

(** The ticks at which the address differs from the one seen at the tick
    before ([lastUrl] before the first). *)
Fixpoint addressChanges (lastUrl : option string) (ticks : list Env) : list Env :=
  match ticks with
  | [] => []
  | env :: rest =>
      match lastUrl with
      | Some last =>
          if String.eqb (href env) last then addressChanges lastUrl rest
          else env :: addressChanges (Some (href env)) rest
      | None => env :: addressChanges (Some (href env)) rest
      end
  end.

(** ** Installation (scripts/background.ts) *)

Record PopupSettings : Set := mkPopupSettings {
  hideYoutubeShorts : bool;
  halalMode : bool
}.

(** The three keys of config/storage.ts: the startup time in the local
    area, the popup settings and the rules in the synchronised area. *)
Record ExtensionStorage : Set := mkExtensionStorage {
  stored_startupTime : option float;
  stored_popupSettings : option PopupSettings;
  stored_siteRules : option (list SiteRule)
}.

(** What the browser answers while the [onInstalled] listener runs: the
    clock, the rendering of the clock in the id of the default rule, and
    whether each storage call resolves. *)
Record InstallAnswers : Set := mkInstallAnswers {
  installed_at : float;
  id_stamp : string;
  local_set_ok : bool;
  settings_get_ok : bool;
  settings_set_ok : bool;
  rules_get_ok : bool;
  rules_set_ok : bool
}.

Inductive HandlerResult : Set := Resolved | Rejected.

(** The rule built from [RULE_PRESETS['block-youtube-shorts']]. *)
Definition defaultRule (stamp : string) : SiteRule :=
  mkSiteRule ("preset_block-youtube-shorts_" ++ stamp)%string
    "Block YouTube Shorts" "youtube.com/shorts" Contains BlockAction true.

(** The listener of [browser.runtime.onInstalled].  The write of the
    startup time is not awaited; the other calls are, and the listener
    stops at the first that rejects. *)
Definition onInstalled (a : InstallAnswers) (st : ExtensionStorage)
  : HandlerResult * ExtensionStorage :=
  let st1 :=
    if local_set_ok a
    then mkExtensionStorage (Some (installed_at a)) (stored_popupSettings st)
           (stored_siteRules st)
    else st in
  if negb (settings_get_ok a) then (Rejected, st1)
  else
    let settled :=
      match stored_popupSettings st1 with
      | Some _ => Some st1
      | None =>
          if settings_set_ok a
          then Some (mkExtensionStorage (stored_startupTime st1)
                       (Some (mkPopupSettings true false)) (stored_siteRules st1))
          else None
      end in
    match settled with
    | None => (Rejected, st1)
    | Some st2 =>
        if negb (rules_get_ok a) then (Rejected, st2)
        else
          match stored_siteRules st2 with
          | Some (rule :: others) => (Resolved, st2)
          | _ =>
              if rules_set_ok a
              then (Resolved,
                    mkExtensionStorage (stored_startupTime st2)
                      (stored_popupSettings st2) (Some [defaultRule (id_stamp a)]))
              else (Rejected, st2)
          end
    end.

(** ** The countdown of the notice page (scripts/alert.ts) *)

(** The decimal rendering of an integer in a template string. *)
Definition showNumber (n : Z) : string := NilZero.string_of_int (Z.to_int n).

(** The local variables [hours], [minutes] and [seconds] of
    [formatCountdown], for an argument that is an integer below [2 ^ 53].
    The argument is a difference of two time values, an integer; below
    [2 ^ 53] it is a binary64 number, the quotients by 1000, 3600 and 60
    are rounded by less than their distance to the next integer, so that
    [Math.floor(x / y)] is the floor division, and [%] is the remainder
    that takes the sign of the dividend.  Beyond that bound the binary64
    arithmetic of the source is not this one, and the properties below
    are stated within it. *)
Definition countdownParts (milliseconds : Z) : Z * Z * Z :=
  let totalSeconds := (milliseconds / 1000)%Z in
  ((totalSeconds / 3600)%Z,
   (Z.rem totalSeconds 3600 / 60)%Z,
   Z.rem totalSeconds 60).

(** [formatCountdown(milliseconds)], for the same arguments. *)
Definition formatCountdown (milliseconds : Z) : string :=
  let '(hours, minutes, seconds) := countdownParts milliseconds in
  (if (0 <? hours)%Z then
     showNumber hours ++ "h " ++ showNumber minutes ++ "m "
     ++ showNumber seconds ++ "s"
   else if (0 <? minutes)%Z then
     showNumber minutes ++ "m " ++ showNumber seconds ++ "s"
   else showNumber seconds ++ "s")%string.

(** Every address of [urls] differs from the one before it, [last]
    standing before the first. *)
Fixpoint eachDiffersFromPrevious (last : option string) (urls : list string)
  : Prop :=
  match urls with
  | [] => True
  | url :: rest => last <> Some url /\ eachDiffersFromPrevious (Some url) rest
  end.

(** A store into which nothing was ever written. *)
Definition emptyStorage : ExtensionStorage := mkExtensionStorage None None None.

(** A browser in which every call of the installation resolves. *)
Definition installingAt (now : float) (stamp : string) : InstallAnswers :=
  mkInstallAnswers now stamp true true true true true.

(** ** Zero as a policy parameter *)




(** ** Proof support *)

Ltac run_service :=
  unfold bind, ret, gets, asks, modify, lift in *; simpl in *.

(** ** The model on the examples of the documentation *)

Example includes_youtube :
  includes "https://youtube.com/watch" "youtube.com" = true
  /\ endsWith "https://youtube.com/watch" "/watch" = true
  /\ endsWith "ab" "cab" = false
  /\ includes "" "" = true
  /\ startsWith "abc" "" = true.
Proof. repeat split; reflexivity. Qed.

(** The first visit of a Shorts page with the default rule stored: the
    rules are loaded and the page is redirected to the notice of the
    block. *)
Example block_youtube_shorts :
  applyRule literal_RegExp_test (browserAt shortsUrl 1700000001000 3600)
    (initialWorld (Some [blockShortsRule]))
  = (Normal tt,
     mkWorld [blockShortsRule] true false [] 0 (Some [blockShortsRule])
       [StorageGet;
        SetLocation
          (mkAlertUrl "html/alert.html"
             [("type", QString "block");
              ("currentUrl", QString shortsUrl);
              ("ruleTitle", QString "Block YouTube Shorts")])]).
Proof. reflexivity. Qed.

(** A rule that is switched off is skipped, whatever its pattern. *)
Example disabled_rule_is_skipped :
  findMatch literal_RegExp_test shortsUrl [disabledGroupRule; blockShortsRule] 0
  = Normal (Some (1, blockShortsRule)).
Proof. reflexivity. Qed.

(** ** The pattern matcher *)

(** C7: for each of the five pairs of match types and every url and
    pattern, the matcher of the negative type returns the boolean negation
    of what the matcher of the positive type returns (and throws exactly
    when the positive one throws, which only [Regex] can do). *)
Theorem negative_matcher_negates_positive
  (RegExp_test : string -> string -> Completion bool) (url pattern : string) :
  let matcher := siteRulesMatcher RegExp_test in
  matcher NotEqualTo url pattern = Completion_map negb (matcher EqualTo url pattern)
  /\ matcher NotStartsWith url pattern
     = Completion_map negb (matcher StartsWith url pattern)
  /\ matcher NotEndsWith url pattern
     = Completion_map negb (matcher EndsWith url pattern)
  /\ matcher NotContains url pattern
     = Completion_map negb (matcher Contains url pattern)
  /\ matcher NotRegex url pattern = Completion_map negb (matcher Regex url pattern).
Proof. cbv zeta. repeat split; reflexivity. Qed.

(** ** The rule store *)

Lemma filter_all {A : Type} (p : A -> bool) (l : list A) :
  (forall x, In x l -> p x = true) -> List.filter p l = l.
Proof.
  induction l as [|x l IH]; intros H; simpl; [reflexivity|].
  rewrite (H x (or_introl eq_refl)). f_equal. apply IH.
  intros y Hy. apply H. right. exact Hy.
Qed.

Lemma findIndex_None {A : Type} (p : A -> bool) (l : list A) :
  findIndex p l = None <-> forall x, In x l -> p x = false.
Proof.
  induction l as [|x l IH]; simpl.
  - split; [intros _ y []|reflexivity].
  - destruct (p x) eqn:Hx.
    + split; [discriminate|]. intros H. specialize (H x (or_introl eq_refl)).
      congruence.
    + destruct (findIndex p l) as [i|]; simpl.
      * split; [discriminate|]. intros H.
        assert (Hl : forall y, In y l -> p y = false) by (intros; apply H; now right).
        apply IH in Hl. discriminate.
      * split; [|reflexivity]. intros _ y [<-|Hy]; [exact Hx|].
        now apply (proj1 IH).
Qed.

Lemma find_None_iff {A : Type} (p : A -> bool) (l : list A) :
  List.find p l = None <-> forall x, In x l -> p x = false.
Proof.
  split; [apply find_none|].
  induction l as [|x l IH]; intros H; simpl; [reflexivity|].
  rewrite (H x (or_introl eq_refl)). apply IH. intros y Hy. apply H. now right.
Qed.

Lemma world_eta (w : World) :
  mkWorld (rules w) (rulesLoaded w) (limitRuleUpdateIntervalRunning w)
    (intervals w) (nextIntervalId w) (storage w) (trace w) = w.
Proof. destruct w; reflexivity. Qed.

(** C9: [loadRules] never throws; when the read fails or nothing is
    stored under the key it returns the empty sequence and empties the
    cache.  [saveRules] never throws either and leaves the cache as it is;
    when the write fails, the stored value is untouched and the only
    trace of the failure is the logged error. *)
Theorem storage_failures_do_not_propagate (env : Env) (w : World) :
  (exists rs,
      fst (loadRules env w) = Normal rs
      /\ rules (snd (loadRules env w)) = rs
      /\ (sync_get_ok env = false \/ storage w = None -> rs = []))
  /\ fst (saveRules env w) = Normal tt
  /\ rules (snd (saveRules env w)) = rules w
  /\ (sync_set_ok env = false ->
      storage (snd (saveRules env w)) = storage w
      /\ trace (snd (saveRules env w))
         = trace w ++ [StorageSet (rules w); ConsoleError "Error saving rules:"]).
Proof.
  split; [|split; [|split]].
  - unfold loadRules. run_service.
    destruct (sync_get_ok env) eqn:Hget; simpl.
    + eexists. split; [reflexivity|]. split; [reflexivity|].
      intros [H|H]; [discriminate|]. rewrite H. reflexivity.
    + exists []. repeat split; reflexivity.
  - unfold saveRules. run_service. destruct (sync_set_ok env); reflexivity.
  - unfold saveRules. run_service. destruct (sync_set_ok env); reflexivity.
  - intros Hset. unfold saveRules. run_service. rewrite Hset. simpl.
    split; [reflexivity|]. rewrite <- app_assoc. reflexivity.
Qed.

(** C10: when no stored rule has the given id, [updateRule] and
    [toggleRule] return [null], [deleteRule] returns [false], and each of
    them leaves the whole state as it was: same rule sequence, same stored
    value, and no call to the storage added to the trace. *)
Theorem not_found_changes_nothing
  (env : Env) (w : World) (ruleId : string) (updates : RuleUpdates) :
  (forall r, In r (rules w) -> id r <> ruleId) ->
  updateRule ruleId updates env w = (Normal None, w)
  /\ toggleRule ruleId env w = (Normal None, w)
  /\ deleteRule ruleId env w = (Normal false, w).
Proof.
  intros Hnone.
  assert (Hp : forall r, In r (rules w) -> String.eqb (id r) ruleId = false).
  { intros r Hr. apply String.eqb_neq. now apply Hnone. }
  split; [|split].
  - unfold updateRule. run_service.
    rewrite (proj2 (findIndex_None _ _) Hp). reflexivity.
  - unfold toggleRule. run_service.
    rewrite (proj2 (find_None_iff _ _) Hp). reflexivity.
  - unfold deleteRule. run_service.
    rewrite filter_all.
    + rewrite Nat.eqb_refl. simpl. unfold set_rules. now rewrite world_eta.
    + intros r Hr. rewrite (Hp r Hr). reflexivity.
Qed.

(** *** Reordering *)

Lemma addInNewOrder_from (rs acc : list SiteRule) (newOrder : list string) :
  fold_left
    (fun reorderedRules ruleId =>
       match List.find (fun r => String.eqb (id r) ruleId) rs with
       | Some rule => reorderedRules ++ [rule]
       | None => reorderedRules
       end) newOrder acc
  = acc ++ listedInOrder rs newOrder.
Proof.
  revert acc. induction newOrder as [|ruleId newOrder IH]; intros acc; simpl.
  - now rewrite app_nil_r.
  - rewrite IH. unfold ruleWithId.
    destruct (List.find _ rs) as [rule|]; simpl; [|reflexivity].
    now rewrite <- app_assoc.
Qed.

Lemma addInNewOrder_listed (rs : list SiteRule) (newOrder : list string) :
  addInNewOrder rs newOrder = listedInOrder rs newOrder.
Proof. unfold addInNewOrder. now rewrite addInNewOrder_from. Qed.

Lemma find_id_existsb (ruleId : string) (l : list SiteRule) :
  List.find (fun r => String.eqb (id r) ruleId) l = None
  <-> existsb (String.eqb ruleId) (map id l) = false.
Proof.
  induction l as [|x l IH]; simpl; [tauto|].
  rewrite (String.eqb_sym ruleId (id x)).
  destruct (String.eqb (id x) ruleId); simpl; [split; discriminate|exact IH].
Qed.

Lemma existsb_id_snoc (ruleId : string) (acc : list SiteRule) (rule : SiteRule) :
  id rule <> ruleId ->
  existsb (String.eqb ruleId) (map id (acc ++ [rule]))
  = existsb (String.eqb ruleId) (map id acc).
Proof.
  intros Hne. rewrite map_app, existsb_app. simpl.
  replace (String.eqb ruleId (id rule)) with false.
  - now rewrite !orb_false_r.
  - symmetry. apply String.eqb_neq. congruence.
Qed.

Lemma addMissing_filter (rs acc : list SiteRule) :
  NoDup (map id rs) ->
  addMissing rs acc
  = acc ++ List.filter (fun r => negb (existsb (String.eqb (id r)) (map id acc))) rs.
Proof.
  unfold addMissing. revert acc.
  induction rs as [|rule rs IH]; intros acc Hnd; simpl.
  - now rewrite app_nil_r.
  - inversion Hnd as [|? ? Hnotin Hnd']; subst.
    destruct (List.find _ acc) as [hit|] eqn:Hfind.
    + assert (Hex : existsb (String.eqb (id rule)) (map id acc) = true).
      { destruct (existsb _ _) eqn:E; [reflexivity|].
        apply find_id_existsb in E. congruence. }
      rewrite Hex. simpl. now apply IH.
    + apply find_id_existsb in Hfind. rewrite Hfind. simpl.
      rewrite (IH _ Hnd'), <- app_assoc. simpl. do 2 f_equal.
      apply filter_ext_in. intros r Hr. f_equal.
      apply existsb_id_snoc. intros Heq. apply Hnotin. rewrite Heq.
      apply list_elem_of_In. now apply in_map.
Qed.

Lemma listedInOrder_ids (rs : list SiteRule) (newOrder : list string) (r : SiteRule) :
  In r rs ->
  existsb (String.eqb (id r)) (map id (listedInOrder rs newOrder))
  = existsb (String.eqb (id r)) newOrder.
Proof.
  intros Hr. induction newOrder as [|ruleId newOrder IH]; simpl; [reflexivity|].
  rewrite map_app, existsb_app, IH. f_equal. unfold ruleWithId.
  destruct (List.find _ rs) as [rule|] eqn:Hfind; simpl.
  - apply find_some in Hfind as [_ Hid]. apply String.eqb_eq in Hid.
    rewrite Hid. now rewrite orb_false_r.
  - destruct (String.eqb (id r) ruleId) eqn:E; [|reflexivity].
    apply String.eqb_eq in E. apply find_none with (x := r) in Hfind; [|exact Hr].
    simpl in Hfind. rewrite E, String.eqb_refl in Hfind. discriminate.
Qed.

Lemma reorder_result (rs : list SiteRule) (newOrder : list string) :
  NoDup (map id rs) ->
  addMissing rs (addInNewOrder rs newOrder)
  = listedInOrder rs newOrder ++ missingFrom newOrder rs.
Proof.
  intros Hnd. rewrite addInNewOrder_listed, (addMissing_filter _ _ Hnd).
  f_equal. unfold missingFrom. apply filter_ext_in. intros r Hr.
  now rewrite listedInOrder_ids.
Qed.

(** C8: on a store whose rules have pairwise distinct ids, [reorderRules]
    leaves in the cache, and writes to the storage, the stored rules named
    by the input in the order of the input, followed by the stored rules
    whose id the input does not name, in their stored order.  On a store
    ordered [a, b, c] the input [c, a] yields [c, a, b]. *)
Theorem reorderRules_order (env : Env) (w : World) (newOrder : list string) :
  NoDup (map id (rules w)) ->
  let w' := snd (reorderRules newOrder env w) in
  fst (reorderRules newOrder env w) = Normal tt
  /\ rules w' = listedInOrder (rules w) newOrder ++ missingFrom newOrder (rules w)
  /\ (exists logged, trace w' = trace w ++ StorageSet (rules w') :: logged)
  /\ (sync_set_ok env = true -> storage w' = Some (rules w'))
  /\ (forall a b c : SiteRule,
        id a = "a" -> id b = "b" -> id c = "c" -> rules w = [a; b; c] ->
        newOrder = ["c"; "a"] -> rules w' = [c; a; b]).
Proof.
  intros Hnd. cbv zeta. unfold reorderRules, saveRules. run_service.
  rewrite (reorder_result _ _ Hnd).
  destruct (sync_set_ok env) eqn:Hset; simpl;
    (split; [reflexivity|]); (split; [reflexivity|]).
  - split; [exists []; reflexivity|]. split; [reflexivity|].
    intros a b c Ha Hb Hc Hrs ->. rewrite Hrs. unfold missingFrom. simpl.
    unfold ruleWithId. simpl. rewrite Ha, Hb, Hc. reflexivity.
  - split; [eexists; rewrite <- app_assoc; reflexivity|].
    split; [discriminate|].
    intros a b c Ha Hb Hc Hrs ->. rewrite Hrs. unfold missingFrom. simpl.
    unfold ruleWithId. simpl. rewrite Ha, Hb, Hc. reflexivity.
Qed.

(** ** Usage accounting *)

Lemma limitRuleAt_Some (w : World) (i : nat) (rule : SiteRule) (a : LimitState) :
  rules w !! i = Some rule -> action rule = LimitAction a ->
  limitRuleAt i w = Some (rule, a).
Proof. intros Hi Ha. unfold limitRuleAt. now rewrite Hi, Ha. Qed.

Lemma limitRuleAt_inv (w : World) (i : nat) (rule : SiteRule) (a : LimitState) :
  limitRuleAt i w = Some (rule, a) ->
  rules w !! i = Some rule /\ action rule = LimitAction a.
Proof.
  unfold limitRuleAt. destruct (rules w !! i) as [r|]; [|discriminate].
  destruct (action r) eqn:Ha; try discriminate. intros [= <- <-]. now split.
Qed.

Lemma saveRules_run (env : Env) (w : World) :
  saveRules env w
  = (Normal tt,
     if sync_set_ok env
     then set_storage (Some (rules w)) (emit (StorageSet (rules w)) w)
     else emit (ConsoleError "Error saving rules:") (emit (StorageSet (rules w)) w)).
Proof. unfold saveRules. run_service. destruct (sync_set_ok env); reflexivity. Qed.

Lemma updateLimitRuleUsage_run
  (env : Env) (w : World) (i : nat) (rule : SiteRule) (a : LimitState) :
  limitRuleAt i w = Some (rule, a) ->
  updateLimitRuleUsage i env w
  = saveRules env
      (set_rules (<[i := accounted (usage_now env) rule a]> (rules w)) w).
Proof. intros H. unfold updateLimitRuleUsage. run_service. now rewrite H. Qed.

Lemma limitRuleAt_updated
  (env : Env) (w : World) (i : nat) (rule : SiteRule) (a : LimitState) :
  limitRuleAt i w = Some (rule, a) ->
  limitRuleAt i (snd (updateLimitRuleUsage i env w))
  = Some (accounted (usage_now env) rule a, accountUsage (usage_now env) a).
Proof.
  intros H. rewrite (updateLimitRuleUsage_run _ _ _ _ _ H), saveRules_run.
  apply limitRuleAt_inv in H as [Hi _].
  apply limitRuleAt_Some with (rule := accounted (usage_now env) rule a);
    [|reflexivity].
  destruct (sync_set_ok env); simpl;
    apply list_lookup_insert_eq; eapply lookup_lt_Some; exact Hi.
Qed.

(** C2: one call of [updateLimitRuleUsage] on a Limit rule, the clock
    reading [now], adds [(now - lastUsedAt) / 60000] to [usedMinutes] when
    [now - lastUsedAt <= 30000] holds and adds nothing otherwise; then, when
    [now - lastResetAt >= resetAfterMinutes * 60 * 1000] holds, it sets
    [usedMinutes] to [0] and [lastResetAt] to [now]; it sets [lastUsedAt] to
    [now] in either case, leaves the policy parameters and the other rules
    alone, and saves the rule collection holding the new values.  When the
    gap test fails, [usedMinutes] keeps its value or is reset to [0]. *)
Theorem updateLimitRuleUsage_accounting
  (env : Env) (w : World) (i : nat) (rule : SiteRule) (a : LimitState) :
  rules w !! i = Some rule -> action rule = LimitAction a ->
  let now := usage_now env in
  let w' := snd (updateLimitRuleUsage i env w) in
  let counted :=
    if (now - lastUsedAt a <=? 30000)%float
    then (usedMinutes a + (now - lastUsedAt a) / 60000)%float
    else usedMinutes a in
  exists a',
    fst (updateLimitRuleUsage i env w) = Normal tt
    /\ rules w'
       = <[i := mkSiteRule (id rule) (title rule) (pattern rule) (matchType rule)
                  (LimitAction a') (enabled rule)]> (rules w)
    /\ (if (resetAfterMinutes a * 60 * 1000 <=? now - lastResetAt a)%float
        then usedMinutes a' = 0%float /\ lastResetAt a' = now
        else usedMinutes a' = counted /\ lastResetAt a' = lastResetAt a)
    /\ lastUsedAt a' = now
    /\ allowedMinutes a' = allowedMinutes a
    /\ resetAfterMinutes a' = resetAfterMinutes a
    /\ delayMinutes a' = delayMinutes a
    /\ (exists logged, trace w' = trace w ++ StorageSet (rules w') :: logged)
    /\ (sync_set_ok env = true -> storage w' = Some (rules w'))
    /\ ((now - lastUsedAt a <=? 30000)%float = false ->
        usedMinutes a' = usedMinutes a \/ usedMinutes a' = 0%float).
Proof.
  intros Hi Ha. cbv zeta.
  rewrite (updateLimitRuleUsage_run env w i rule a (limitRuleAt_Some _ _ _ _ Hi Ha)).
  rewrite saveRules_run.
  exists (accountUsage (usage_now env) a).
  split; [reflexivity|].
  split; [destruct (sync_set_ok env); reflexivity|].
  unfold accountUsage.
  destruct (usage_now env - lastUsedAt a <=? 30000)%float eqn:Hgap; simpl;
    destruct (resetAfterMinutes a * 60 * 1000 <=? usage_now env - lastResetAt a)%float
      eqn:Hreset; simpl;
    (split; [split; reflexivity|]); do 4 (split; [reflexivity|]);
    (split; [destruct (sync_set_ok env); simpl;
               [exists []; reflexivity
               |eexists; rewrite <- app_assoc; reflexivity]|]);
    (split; [destruct (sync_set_ok env); simpl; [reflexivity|discriminate]|]);
    intros Hno; try discriminate; auto.
Qed.

(** ** The gates of the Limit protocol *)

Lemma updateLimitRuleUsage_returns
  (env : Env) (w : World) (i : nat) :
  updateLimitRuleUsage i env w = (Normal tt, snd (updateLimitRuleUsage i env w)).
Proof.
  unfold updateLimitRuleUsage. run_service.
  destruct (limitRuleAt i w) as [[rule a]|]; [|reflexivity].
  rewrite saveRules_run. reflexivity.
Qed.

(** What one run of [applyLimitRule] on a Limit rule does. *)
Lemma applyLimitRule_run
  (env : Env) (w : World) (i : nat) (rule : SiteRule) (a : LimitState)
  (currentUrl : string) :
  limitRuleAt i w = Some (rule, a) ->
  let a' := accountUsage (usage_now env) a in
  let delaySeconds := (delayMinutes a' * 60)%float in
  let asked := emit (SendMessage "getUptime") (snd (updateLimitRuleUsage i env w)) in
  let redirected allowedAt :=
    emit (SetLocation
            (alertUrl (mkAlertParams "limit" currentUrl (title rule) (Some allowedAt))))
         asked in
  applyLimitRule i currentUrl env w
  = (Normal tt,
     if (uptimeSec env <? delaySeconds)%float
     then redirected (gate_now env + (delaySeconds - uptimeSec env) * 1000)%float
     else if (allowedMinutes a' <=? usedMinutes a')%float
     then redirected (lastResetAt a' + resetAfterMinutes a' * 60 * 1000)%float
     else if limitRuleUpdateIntervalRunning asked then asked
     else set_nextIntervalId (S (nextIntervalId asked))
            (set_intervals
               (intervals asked
                ++ [mkMonitor (nextIntervalId asked) (id rule) (title rule) currentUrl])
               (set_limitRuleUpdateIntervalRunning true asked))).
Proof.
  intros Hat. cbv zeta.
  pose proof (limitRuleAt_updated env _ _ _ _ Hat) as Hat'.
  unfold applyLimitRule, redirectToAlertPage, setInterval. run_service.
  rewrite Hat, (updateLimitRuleUsage_returns env w i). simpl.
  rewrite Hat'. simpl.
  destruct (uptimeSec env <? _)%float; [reflexivity|].
  destruct (allowedMinutes _ <=? _)%float; [reflexivity|].
  destruct (limitRuleUpdateIntervalRunning _); reflexivity.
Qed.

(** C3: when [applyLimitRule] runs on a Limit rule it first does the
    accounting and asks for the uptime; then, with the values the
    accounting left, (1) if [delayMinutes * 60 > uptimeSec] it redirects
    with type [limit] and
    [allowedAt = now + (delayMinutes * 60 - uptimeSec) * 1000]; (2)
    otherwise, if [usedMinutes >= allowedMinutes], it redirects with type
    [limit] and [allowedAt = lastResetAt + resetAfterMinutes * 60 * 1000];
    (3) otherwise it does not redirect.  The address of both redirects
    carries the current URL and the title of the rule, and the [allowedAt]
    it was given (a number that is neither zero nor NaN, as timestamps
    are). *)
Theorem applyLimitRule_gates
  (env : Env) (w : World) (i : nat) (rule : SiteRule) (a : LimitState)
  (currentUrl : string) :
  rules w !! i = Some rule -> action rule = LimitAction a ->
  let a' := accountUsage (usage_now env) a in
  let delaySeconds := (delayMinutes a' * 60)%float in
  let asked := emit (SendMessage "getUptime") (snd (updateLimitRuleUsage i env w)) in
  let redirected allowedAt :=
    (Normal tt,
     emit (SetLocation
             (alertUrl (mkAlertParams "limit" currentUrl (title rule) (Some allowedAt))))
          asked) in
  ((uptimeSec env <? delaySeconds)%float = true ->
   applyLimitRule i currentUrl env w
   = redirected (gate_now env + (delaySeconds - uptimeSec env) * 1000)%float)
  /\ ((uptimeSec env <? delaySeconds)%float = false ->
      (allowedMinutes a' <=? usedMinutes a')%float = true ->
      applyLimitRule i currentUrl env w
      = redirected (lastResetAt a' + resetAfterMinutes a' * 60 * 1000)%float)
  /\ ((uptimeSec env <? delaySeconds)%float = false ->
      (allowedMinutes a' <=? usedMinutes a')%float = false ->
      fst (applyLimitRule i currentUrl env w) = Normal tt
      /\ trace (snd (applyLimitRule i currentUrl env w)) = trace asked)
  /\ (forall allowedAt,
        let q := alert_query
                   (alertUrl (mkAlertParams "limit" currentUrl (title rule)
                                (Some allowedAt))) in
        query_get "type" q = Some (QString "limit")
        /\ query_get "currentUrl" q = Some (QString currentUrl)
        /\ query_get "ruleTitle" q = Some (QString (title rule))
        /\ (truthy allowedAt = true ->
            query_get "allowedAt" q = Some (QNumber allowedAt))).
Proof.
  intros Hi Ha. cbv zeta.
  rewrite (applyLimitRule_run env w i rule a currentUrl
             (limitRuleAt_Some _ _ _ _ Hi Ha)).
  split; [|split; [|split]].
  - intros ->. reflexivity.
  - intros -> ->. reflexivity.
  - intros -> ->. simpl.
    destruct (limitRuleUpdateIntervalRunning _); split; reflexivity.
  - intros allowedAt. split; [reflexivity|]. split; [reflexivity|].
    split; [reflexivity|]. intros H. simpl. now rewrite H.
Qed.

(** ** Selection of the rule to enforce *)

Lemma loadRules_returns (env : Env) (w : World) :
  loadRules env w = (Normal (rules (snd (loadRules env w))), snd (loadRules env w)).
Proof. unfold loadRules. run_service. destruct (sync_get_ok env); reflexivity. Qed.

Lemma applyRule_run
  (RegExp_test : string -> string -> Completion bool) (env : Env) (w : World) :
  let w1 := ensureLoaded env w in
  applyRule RegExp_test env w
  = match findMatch RegExp_test (href env) (rules w1) 0 with
    | Normal (Some (i, rule)) => applyMatchedRule i rule (href env) env w1
    | Normal None => (Normal tt, w1)
    | Throw e => (Throw e, w1)
    end.
Proof.
  cbv zeta. unfold applyRule, ensureLoaded. run_service.
  destruct (rulesLoaded w); simpl.
  - destruct (findMatch _ _ _ _) as [[[i rule]|]|e]; reflexivity.
  - rewrite (loadRules_returns env w). simpl.
    destruct (findMatch _ _ _ _) as [[[i rule]|]|e]; reflexivity.
Qed.






(** ** Zero as a policy parameter *)

Lemma accountUsage_policy (now : float) (a : LimitState) :
  allowedMinutes (accountUsage now a) = allowedMinutes a
  /\ resetAfterMinutes (accountUsage now a) = resetAfterMinutes a
  /\ delayMinutes (accountUsage now a) = delayMinutes a.
Proof.
  unfold accountUsage.
  destruct (now - lastUsedAt a <=? 30000)%float; simpl;
    destruct (_ <=? now - lastResetAt a)%float; simpl; repeat split.
Qed.

(** With [allowedMinutes = 0] the quota gate compares [usedMinutes >= 0]:
    it redirects as soon as the delay has elapsed and the usage is not
    negative. *)
Lemma zero_allowedMinutes_redirects
  (env : Env) (w : World) (i : nat) (rule : SiteRule) (a : LimitState)
  (currentUrl : string) :
  rules w !! i = Some rule -> action rule = LimitAction a ->
  allowedMinutes a = 0%float ->
  let a' := accountUsage (usage_now env) a in
  (uptimeSec env <? delayMinutes a * 60)%float = false ->
  (0 <=? usedMinutes a')%float = true ->
  exists w',
    applyLimitRule i currentUrl env w
    = (Normal tt,
       emit (SetLocation
               (alertUrl (mkAlertParams "limit" currentUrl (title rule)
                            (Some (lastResetAt a' + resetAfterMinutes a' * 60 * 1000)%float))))
            w').
Proof.
  intros Hi Ha H0 a' Hdelay Hused.
  destruct (accountUsage_policy (usage_now env) a) as (Hallowed & _ & Hdelayed).
  rewrite (applyLimitRule_run env w i rule a currentUrl
             (limitRuleAt_Some _ _ _ _ Hi Ha)).
  fold a'. fold a' in Hallowed, Hdelayed.
  rewrite Hdelayed, Hdelay, Hallowed, H0, Hused. eexists. reflexivity.
Qed.




(** ** The monitoring loop *)

Lemma findIndex_find {A : Type} (p : A -> bool) (l : list A) :
  match findIndex p l with
  | Some j => exists x, l !! j = Some x /\ List.find p l = Some x
  | None => List.find p l = None
  end.
Proof.
  induction l as [|x l IH]; simpl; [reflexivity|].
  destruct (p x); [now exists x|].
  destruct (findIndex p l) as [j|]; simpl; exact IH.
Qed.

Lemma monitorCallback_run
  (RegExp_test : string -> string -> Completion bool)
  (m : Monitor) (env : Env) (w : World) :
  let w1 := snd (loadRules env w) in
  let stopped := set_intervals (withoutMonitor m (intervals w1)) w1 in
  monitorCallback RegExp_test m env w
  = match findIndex (fun r => String.eqb (id r) (monitoredId m)) (rules w1) with
    | None => (Normal tt, stopped)
    | Some j =>
        match ruleWithId (rules w1) (monitoredId m) with
        | None => (Normal tt, stopped)
        | Some freshedRule =>
            if negb (enabled freshedRule) then (Normal tt, stopped)
            else
              match ruleMatchWithUrl RegExp_test freshedRule (monitoredUrl m) with
              | Throw e => (Throw e, w1)
              | Normal false => (Normal tt, stopped)
              | Normal true =>
                  match action freshedRule with
                  | LimitAction a =>
                      if (allowedMinutes a <=? usedMinutes a)%float
                      then (Normal tt,
                            emit (SetLocation
                                    (alertUrl
                                       (mkAlertParams "limit" (monitoredUrl m)
                                          (monitoredTitle m)
                                          (Some (lastResetAt a
                                                 + resetAfterMinutes a * 60 * 1000)%float))))
                                 stopped)
                      else updateLimitRuleUsage j env w1
                  | _ => (Normal tt, stopped)
                  end
              end
        end
    end.
Proof.
  cbv zeta. unfold monitorCallback, clearInterval, redirectToAlertPage.
  run_service. rewrite (loadRules_returns env w). simpl.
  pose proof (findIndex_find (fun r => String.eqb (id r) (monitoredId m))
                (rules (snd (loadRules env w)))) as Hfind.
  destruct (findIndex _ _) as [j|]; [|reflexivity].
  destruct Hfind as (x & Hj & Hx). unfold ruleWithId. rewrite Hj, Hx.
  destruct (enabled x); simpl; [|reflexivity].
  destruct (ruleMatchWithUrl RegExp_test x (monitoredUrl m)) as [[|]|e]; simpl;
    try reflexivity.
  destruct (action x) as [| |a]; try reflexivity.
  destruct (allowedMinutes a <=? usedMinutes a)%float; reflexivity.
Qed.



(** ** One monitor per page context *)

Lemma loadRules_timers (env : Env) (w : World) :
  intervals (snd (loadRules env w)) = intervals w
  /\ limitRuleUpdateIntervalRunning (snd (loadRules env w))
     = limitRuleUpdateIntervalRunning w.
Proof. unfold loadRules. run_service. destruct (sync_get_ok env); now split. Qed.

Lemma updateLimitRuleUsage_timers (env : Env) (w : World) (i : nat) :
  intervals (snd (updateLimitRuleUsage i env w)) = intervals w
  /\ limitRuleUpdateIntervalRunning (snd (updateLimitRuleUsage i env w))
     = limitRuleUpdateIntervalRunning w.
Proof.
  unfold updateLimitRuleUsage. run_service.
  destruct (limitRuleAt i w) as [[rule a]|]; [|now split].
  rewrite saveRules_run. destruct (sync_set_ok env); now split.
Qed.

(** A run of [applyLimitRule] leaves the timers and the flag alone, or
    finds the flag clear, sets it and adds one timer. *)
Lemma applyLimitRule_timers (env : Env) (w : World) (i : nat) (currentUrl : string) :
  let w' := snd (applyLimitRule i currentUrl env w) in
  (intervals w' = intervals w
   /\ limitRuleUpdateIntervalRunning w' = limitRuleUpdateIntervalRunning w)
  \/ (limitRuleUpdateIntervalRunning w = false
      /\ limitRuleUpdateIntervalRunning w' = true
      /\ exists m, intervals w' = intervals w ++ [m]).
Proof.
  cbv zeta. destruct (updateLimitRuleUsage_timers env w i) as [Hi Hf].
  destruct (limitRuleAt i w) as [[rule a]|] eqn:Hat.
  - rewrite (applyLimitRule_run env w i rule a currentUrl Hat). simpl.
    destruct (uptimeSec env <? _)%float; [left; split; assumption|].
    destruct (allowedMinutes _ <=? _)%float; [left; split; assumption|].
    destruct (limitRuleUpdateIntervalRunning (snd (updateLimitRuleUsage i env w)))
      eqn:Hrun; simpl.
    + left. split; [exact Hi|congruence].
    + right. rewrite <- Hf, Hi. split; [reflexivity|]. split; [reflexivity|].
      eexists. reflexivity.
  - left. unfold applyLimitRule. run_service. rewrite Hat. now split.
Qed.

Lemma applyRule_timers
  (RegExp_test : string -> string -> Completion bool) (env : Env) (w : World) :
  let w' := snd (applyRule RegExp_test env w) in
  (intervals w' = intervals w
   /\ limitRuleUpdateIntervalRunning w' = limitRuleUpdateIntervalRunning w)
  \/ (limitRuleUpdateIntervalRunning w = false
      /\ limitRuleUpdateIntervalRunning w' = true
      /\ exists m, intervals w' = intervals w ++ [m]).
Proof.
  cbv zeta. rewrite (applyRule_run RegExp_test env w). cbv zeta.
  assert (Hload : intervals (ensureLoaded env w) = intervals w
                  /\ limitRuleUpdateIntervalRunning (ensureLoaded env w)
                     = limitRuleUpdateIntervalRunning w).
  { unfold ensureLoaded. destruct (rulesLoaded w); [now split|].
    apply loadRules_timers. }
  destruct Hload as [Hi Hf]. rewrite <- Hi, <- Hf.
  destruct (findMatch _ _ _ _) as [[[i rule]|]|e]; try (left; now split).
  unfold applyMatchedRule.
  destruct (action_type (action rule)); try (left; now split).
  apply applyLimitRule_timers.
Qed.

Lemma withoutMonitor_length (m : Monitor) (ms : list Monitor) :
  length (withoutMonitor m ms) <= length ms.
Proof. apply filter_length_le. Qed.

Lemma monitorCallback_timers
  (RegExp_test : string -> string -> Completion bool)
  (m : Monitor) (env : Env) (w : World) :
  let w' := snd (monitorCallback RegExp_test m env w) in
  limitRuleUpdateIntervalRunning w' = limitRuleUpdateIntervalRunning w
  /\ (intervals w' = intervals w \/ intervals w' = withoutMonitor m (intervals w)).
Proof.
  cbv zeta. rewrite (monitorCallback_run RegExp_test m env w). cbv zeta.
  destruct (loadRules_timers env w) as [Hi Hf]. rewrite Hi.
  destruct (findIndex _ _) as [j|]; [|split; [exact Hf|now right]].
  destruct (ruleWithId _ _) as [r|]; [|split; [exact Hf|now right]].
  destruct (enabled r); simpl; [|split; [exact Hf|now right]].
  destruct (ruleMatchWithUrl RegExp_test r (monitoredUrl m)) as [[|]|e]; simpl;
    [|split; [exact Hf|now right]|split; [exact Hf|now left]].
  destruct (action r) as [| |a]; try (split; [exact Hf|now right]).
  destruct (allowedMinutes a <=? usedMinutes a)%float;
    [split; [exact Hf|now right]|].
  destruct (updateLimitRuleUsage_timers env (snd (loadRules env w)) j) as [Hi' Hf'].
  rewrite Hi', Hf'. split; [exact Hf|now left].
Qed.

(** The flag is never cleared: once a monitor has been started, every
    later state of the page context has the flag set. *)
Lemma running_flag_sticks
  (RegExp_test : string -> string -> Completion bool) (w : World) (e : Event) :
  limitRuleUpdateIntervalRunning w = true ->
  limitRuleUpdateIntervalRunning (step RegExp_test w e) = true.
Proof.
  intros Hset. destruct e as [env|h env|stored]; simpl.
  - destruct (applyRule_timers RegExp_test env w) as [[_ Hf]|(Hclear & _)];
      congruence.
  - destruct (List.find _ (intervals w)) as [m|]; [|exact Hset].
    destruct (monitorCallback_timers RegExp_test m env w) as [Hf _]. congruence.
  - exact Hset.
Qed.

Lemma step_oneMonitor
  (RegExp_test : string -> string -> Completion bool) (w : World) (e : Event) :
  oneMonitor w -> oneMonitor (step RegExp_test w e).
Proof.
  intros [Hlen Hflag]. destruct e as [env|h env|stored]; simpl.
  - destruct (applyRule_timers RegExp_test env w)
      as [[Hi Hf]|(Hclear & Hset & m & Hi)]; unfold oneMonitor; rewrite Hi.
    + rewrite Hf. now split.
    + destruct (intervals w) as [|m0 ms].
      * split; [simpl; lia|intros _; exact Hset].
      * rewrite Hflag in Hclear; [discriminate|discriminate].
  - destruct (List.find _ (intervals w)) as [m|]; [|now split].
    destruct (monitorCallback_timers RegExp_test m env w) as [Hf [Hi|Hi]];
      unfold oneMonitor; rewrite Hi, Hf.
    + now split.
    + split.
      * pose proof (withoutMonitor_length m (intervals w)). lia.
      * intros Hne. apply Hflag. intros Hnil. apply Hne. now rewrite Hnil.
  - now split.
Qed.

(** In every state a page context reaches, at most one timer of the
    monitor is live. *)
Lemma at_most_one_monitor
  (RegExp_test : string -> string -> Completion bool)
  (stored : option (list SiteRule)) (events : list Event) :
  oneMonitor (run RegExp_test (initialWorld stored) events).
Proof.
  assert (H0 : oneMonitor (initialWorld stored)).
  { split; [simpl; lia|intros H; now contradiction H]. }
  unfold run. revert H0. generalize (initialWorld stored).
  induction events as [|e events IH]; intros w Hw; simpl; [exact Hw|].
  apply IH. now apply step_oneMonitor.
Qed.

(** A grant that finds the flag clear starts the monitor of the rule. *)
Lemma grant_starts_monitor
  (env : Env) (w : World) (i : nat) (rule : SiteRule) (a : LimitState)
  (currentUrl : string) :
  limitRuleAt i w = Some (rule, a) ->
  let a' := accountUsage (usage_now env) a in
  (uptimeSec env <? delayMinutes a' * 60)%float = false ->
  (allowedMinutes a' <=? usedMinutes a')%float = false ->
  limitRuleUpdateIntervalRunning w = false ->
  intervals (snd (applyLimitRule i currentUrl env w))
  = intervals w ++ [mkMonitor (nextIntervalId w) (id rule) (title rule) currentUrl].
Proof.
  intros Hat a' Hdelay Hquota Hclear.
  rewrite (applyLimitRule_run env w i rule a currentUrl Hat). fold a'.
  rewrite Hdelay, Hquota. simpl.
  destruct (updateLimitRuleUsage_timers env w i) as [Hi Hf].
  rewrite Hf, Hclear. simpl. rewrite Hi. do 3 f_equal.
  rewrite (updateLimitRuleUsage_run _ _ _ _ _ Hat), saveRules_run.
  destruct (sync_set_ok env); reflexivity.
Qed.

(** C5 (the code at the failing input): the first visit reaches the grant
    and starts the monitor; the user edits the pattern of the rule; at its
    next run the monitor sees that its URL no longer matches and clears its
    timer, so that no monitor is running, but the flag stays set; the
    second visit reaches the grant again (usage accounted, uptime asked, no
    redirect) and starts no monitor. *)
Theorem grant_after_exit_starts_no_monitor
  (RegExp_test : string -> string -> Completion bool) :
  let w0 := initialWorld (Some [limitShortsRule 1700000000000]) in
  let w1 := step RegExp_test w0 firstVisit in
  let w3 := run RegExp_test w1 [patternEdited; firstTick] in
  let w4 := step RegExp_test w3 secondVisit in
  intervals w1 = [shortsMonitor]
  /\ intervals w3 = []
  /\ limitRuleUpdateIntervalRunning w3 = true
  /\ (exists rule a,
        limitRuleAt 0 w4 = Some (rule, a)
        /\ (3619 <? delayMinutes a * 60)%float = false
        /\ (allowedMinutes a <=? usedMinutes a)%float = false
        /\ trace w4 = trace w3 ++ [StorageSet [rule]; SendMessage "getUptime"])
  /\ intervals w4 = [].
Proof.
  cbv zeta. split; [reflexivity|]. split; [reflexivity|]. split; [reflexivity|].
  split; [|reflexivity].
  eexists. eexists. split; [reflexivity|]. repeat split.
Qed.

(** ** The properties on sample inputs *)

Lemma updateLimitRuleUsage_accounting_witness :
  let w := loadedWorld [limitShortsRule 1700000000000] in
  let env := browserAt shortsUrl 1700000001000 3600 in
  rules w !! 0 = Some (limitShortsRule 1700000000000)
  /\ action (limitShortsRule 1700000000000)
     = LimitAction (mkLimitState 10 60 0 0 1700000000000 1700000000000)
  /\ exists a',
       rules (snd (updateLimitRuleUsage 0 env w))
       = [mkSiteRule "r4" "Limit Shorts" "youtube.com/shorts" Contains
            (LimitAction a') true]
       /\ usedMinutes a' = (0 + 1000 / 60000)%float
       /\ lastResetAt a' = 1700000000000%float
       /\ lastUsedAt a' = 1700000001000%float
       /\ storage (snd (updateLimitRuleUsage 0 env w))
          = Some (rules (snd (updateLimitRuleUsage 0 env w))).
Proof.
  cbv zeta. split; [reflexivity|]. split; [reflexivity|].
  destruct (updateLimitRuleUsage_accounting
              (browserAt shortsUrl 1700000001000 3600)
              (loadedWorld [limitShortsRule 1700000000000]) 0
              (limitShortsRule 1700000000000)
              (mkLimitState 10 60 0 0 1700000000000 1700000000000)
              eq_refl eq_refl)
    as (a' & _ & Hrules & Hreset & Hused & _ & _ & _ & _ & Hstored & _).
  exists a'. split; [exact Hrules|].
  split; [exact (proj1 Hreset)|]. split; [exact (proj2 Hreset)|].
  split; [exact Hused|]. exact (Hstored eq_refl).
Defined.

Lemma applyLimitRule_gates_witness :
  let w := loadedWorld [limitShortsRule 1700000000000] in
  let delayed := mkLimitState 10 60 60 0 1700000000000 1700000000000 in
  let used := mkLimitState 10 60 0 10 1700000000000 1700000000000 in
  let w_delayed :=
    loadedWorld [mkSiteRule "r5" "Limit YouTube" "youtube.com" Contains
                   (LimitAction delayed) true] in
  let w_used :=
    loadedWorld [mkSiteRule "r5" "Limit YouTube" "youtube.com" Contains
                   (LimitAction used) true] in
  let env := browserAt shortsUrl 1700000001000 120 in
  (uptimeSec env <? delayMinutes (accountUsage (usage_now env) delayed) * 60)%float
  = true
  /\ trace (snd (applyLimitRule 0 shortsUrl env w_delayed))
     = [StorageSet (rules (snd (updateLimitRuleUsage 0 env w_delayed)));
        SendMessage "getUptime";
        SetLocation
          (alertUrl (mkAlertParams "limit" shortsUrl "Limit YouTube"
                       (Some (1700000001000 + (60 * 60 - 120) * 1000)%float)))]
  /\ trace (snd (applyLimitRule 0 shortsUrl env w_used))
     = [StorageSet (rules (snd (updateLimitRuleUsage 0 env w_used)));
        SendMessage "getUptime";
        SetLocation
          (alertUrl (mkAlertParams "limit" shortsUrl "Limit YouTube"
                       (Some (1700000000000 + 60 * 60 * 1000)%float)))]
  /\ trace (snd (applyLimitRule 0 shortsUrl env w))
     = [StorageSet (rules (snd (updateLimitRuleUsage 0 env w)));
        SendMessage "getUptime"].
Proof.
  cbv zeta. split; [reflexivity|].
  split; [|split].
  - destruct (applyLimitRule_gates
                (browserAt shortsUrl 1700000001000 120)
                (loadedWorld [mkSiteRule "r5" "Limit YouTube" "youtube.com" Contains
                                (LimitAction
                                   (mkLimitState 10 60 60 0 1700000000000 1700000000000))
                                true])
                0 _ _ shortsUrl eq_refl eq_refl) as (Hdelay & _).
    rewrite (Hdelay eq_refl). reflexivity.
  - destruct (applyLimitRule_gates
                (browserAt shortsUrl 1700000001000 120)
                (loadedWorld [mkSiteRule "r5" "Limit YouTube" "youtube.com" Contains
                                (LimitAction
                                   (mkLimitState 10 60 0 10 1700000000000 1700000000000))
                                true])
                0 _ _ shortsUrl eq_refl eq_refl) as (_ & Hquota & _).
    rewrite (Hquota eq_refl eq_refl). reflexivity.
  - destruct (applyLimitRule_gates
                (browserAt shortsUrl 1700000001000 120)
                (loadedWorld [limitShortsRule 1700000000000])
                0 _ _ shortsUrl eq_refl eq_refl) as (_ & _ & Hgrant & _).
    rewrite (proj2 (Hgrant eq_refl eq_refl)). reflexivity.
Defined.

Lemma reorderRules_order_witness :
  let w := loadedWorld [ruleA; ruleB; ruleC] in
  let env := browserAt shortsUrl 1700000001000 3600 in
  NoDup (map id (rules w))
  /\ rules (snd (reorderRules ["c"; "a"] env w)) = [ruleC; ruleA; ruleB]
  /\ storage (snd (reorderRules ["c"; "a"] env w)) = Some [ruleC; ruleA; ruleB].
Proof.
  cbv zeta.
  assert (Hnd : NoDup (map id (rules (loadedWorld [ruleA; ruleB; ruleC])))).
  { apply NoDup_ListNoDup. simpl. repeat constructor; simpl; intuition discriminate. }
  split; [exact Hnd|].
  destruct (reorderRules_order (browserAt shortsUrl 1700000001000 3600)
              (loadedWorld [ruleA; ruleB; ruleC]) ["c"; "a"] Hnd)
    as (_ & _ & _ & Hstored & Hcab).
  pose proof (Hcab ruleA ruleB ruleC eq_refl eq_refl eq_refl eq_refl eq_refl) as H.
  split; [exact H|]. rewrite (Hstored eq_refl). now rewrite H.
Defined.

Lemma storage_failures_do_not_propagate_witness :
  let w := loadedWorld [ruleA; ruleB] in
  let env := offlineBrowserAt shortsUrl 1700000001000 3600 in
  sync_get_ok env = false
  /\ sync_set_ok env = false
  /\ fst (loadRules env w) = Normal []
  /\ rules (snd (loadRules env w)) = []
  /\ fst (saveRules env w) = Normal tt
  /\ rules (snd (saveRules env w)) = [ruleA; ruleB]
  /\ storage (snd (saveRules env w)) = Some [ruleA; ruleB]
  /\ trace (snd (saveRules env w))
     = [StorageSet [ruleA; ruleB]; ConsoleError "Error saving rules:"].
Proof.
  cbv zeta. split; [reflexivity|]. split; [reflexivity|].
  destruct (storage_failures_do_not_propagate
              (offlineBrowserAt shortsUrl 1700000001000 3600)
              (loadedWorld [ruleA; ruleB]))
    as ((rs & Hfst & Hrules & Hempty) & Hsave & Hkept & Hfail).
  pose proof (Hempty (or_introl eq_refl)) as Hrs.
  split; [now rewrite Hfst, Hrs|]. split; [now rewrite Hrules, Hrs|].
  split; [exact Hsave|]. split; [exact Hkept|].
  destruct (Hfail eq_refl) as [Hstorage Htrace]. split; assumption.
Defined.

Lemma not_found_changes_nothing_witness :
  let w := loadedWorld [ruleA; ruleB] in
  let env := browserAt shortsUrl 1700000001000 3600 in
  (forall r, In r (rules w) -> id r <> "c")
  /\ updateRule "c" (mkRuleUpdates (Some "Block") None None None None) env w
     = (Normal None, w)
  /\ toggleRule "c" env w = (Normal None, w)
  /\ deleteRule "c" env w = (Normal false, w).
Proof.
  cbv zeta.
  assert (Hnone : forall r, In r (rules (loadedWorld [ruleA; ruleB])) -> id r <> "c").
  { intros r [<-|[<-|[]]]; discriminate. }
  split; [exact Hnone|].
  exact (not_found_changes_nothing (browserAt shortsUrl 1700000001000 3600)
           (loadedWorld [ruleA; ruleB]) "c"
           (mkRuleUpdates (Some "Block") None None None None) Hnone).
Defined.



(** * Further properties of the rule store *)

Lemma find_app_none {A : Type} (p : A -> bool) (l l' : list A) :
  List.find p l = None -> List.find p (l ++ l') = List.find p l'.
Proof.
  induction l as [|x l IH]; simpl; [reflexivity|].
  destruct (p x); [discriminate|exact IH].
Qed.

Lemma find_app_some {A : Type} (p : A -> bool) (l l' : list A) (x : A) :
  List.find p l = Some x -> List.find p (l ++ l') = Some x.
Proof.
  induction l as [|y l IH]; simpl; [discriminate|].
  destruct (p y); [trivial|exact IH].
Qed.

(** X1: [addRule] appends the new rule after the stored ones, saves the
    collection and returns the rule; when the generated id is not the id
    of a stored rule, looking that id up afterwards returns the new rule,
    and the lookup of any other id is what it was. *)
Theorem addRule_then_getRuleById
  (env env' : Env) (w : World) (generatedId : string) (ruleData : RuleData) :
  (forall r, In r (rules w) -> id r <> generatedId) ->
  let newRule := newRuleFrom generatedId ruleData in
  let w' := snd (addRule generatedId ruleData env w) in
  fst (addRule generatedId ruleData env w) = Normal newRule
  /\ rules w' = rules w ++ [newRule]
  /\ fst (getRuleById generatedId env' w') = Normal (Some newRule)
  /\ (forall other, other <> generatedId ->
        fst (getRuleById other env' w') = fst (getRuleById other env' w))
  /\ (exists logged, trace w' = trace w ++ StorageSet (rules w') :: logged)
  /\ (sync_set_ok env = true -> storage w' = Some (rules w')).
Proof.
  intros Hfresh. cbv zeta. unfold addRule, getRuleById. run_service.
  rewrite saveRules_run.
  assert (Hnone : List.find (fun r => String.eqb (id r) generatedId) (rules w) = None).
  { apply find_None_iff. intros r Hr. apply String.eqb_neq. now apply Hfresh. }
  destruct (sync_set_ok env) eqn:Hset; simpl;
    (split; [reflexivity|]); (split; [reflexivity|]).
  - split; [rewrite (find_app_none _ _ _ Hnone); simpl;
            now rewrite String.eqb_refl|].
    split.
    + intros other Hother.
      destruct (List.find (fun r => String.eqb (id r) other) (rules w)) as [x|] eqn:Hx.
      * now rewrite (find_app_some _ _ _ _ Hx).
      * rewrite (find_app_none _ _ _ Hx). simpl.
        replace (String.eqb generatedId other) with false; [reflexivity|].
        symmetry. apply String.eqb_neq. congruence.
    + split; [exists []; reflexivity|reflexivity].
  - split; [rewrite (find_app_none _ _ _ Hnone); simpl;
            now rewrite String.eqb_refl|].
    split.
    + intros other Hother.
      destruct (List.find (fun r => String.eqb (id r) other) (rules w)) as [x|] eqn:Hx.
      * now rewrite (find_app_some _ _ _ _ Hx).
      * rewrite (find_app_none _ _ _ Hx). simpl.
        replace (String.eqb generatedId other) with false; [reflexivity|].
        symmetry. apply String.eqb_neq. congruence.
    + split; [eexists; rewrite <- app_assoc; reflexivity|discriminate].
Qed.

(** X2: what [loadRules] reads back after [saveRules].  When the write
    resolved, the load returns the sequence that was in the cache, in the
    same order; when the write was rejected, the failure having been
    swallowed, the load returns what was stored before the save (nothing
    stored giving the empty sequence) and the cache is replaced by it. *)
Theorem saveRules_then_loadRules (env env' : Env) (w : World) :
  sync_get_ok env' = true ->
  let saved := snd (saveRules env w) in
  let readBack := if sync_set_ok env then rules w else default [] (storage w) in
  fst (loadRules env' saved) = Normal readBack
  /\ rules (snd (loadRules env' saved)) = readBack.
Proof.
  intros Hget. cbv zeta. rewrite saveRules_run. unfold loadRules. run_service.
  rewrite Hget. destruct (sync_set_ok env); simpl; split; reflexivity.
Qed.

Lemma findIndex_Some {A : Type} (p : A -> bool) (l : list A) (i : nat) :
  findIndex p l = Some i ->
  exists x, l !! i = Some x /\ p x = true
            /\ forall j y, j < i -> l !! j = Some y -> p y = false.
Proof.
  revert i. induction l as [|x l IH]; intros i H; simpl in H; [discriminate|].
  destruct (p x) eqn:Hx.
  - injection H as <-. exists x. repeat split; [exact Hx|]. intros j y Hj. lia.
  - destruct (findIndex p l) as [k|]; [|discriminate]. injection H as <-.
    destruct (IH k eq_refl) as (y & Hy & Hpy & Hbefore).
    exists y. repeat split; [exact Hy|exact Hpy|].
    intros j z Hj Hz. destruct j as [|j]; simpl in Hz.
    + injection Hz as <-. exact Hx.
    + apply (Hbefore j z); [lia|exact Hz].
Qed.

Lemma findIndex_exists {A : Type} (p : A -> bool) (l : list A) (x : A) :
  In x l -> p x = true -> exists i, findIndex p l = Some i.
Proof.
  intros Hin Hp. destruct (findIndex p l) as [i|] eqn:H; [now exists i|].
  rewrite (proj1 (findIndex_None p l) H x Hin) in Hp. discriminate.
Qed.

Lemma map_id_insert (l : list SiteRule) (i : nat) (x y : SiteRule) :
  l !! i = Some x -> id y = id x -> map id (<[i := y]> l) = map id l.
Proof.
  revert i. induction l as [|z l IH]; intros i Hi Hid; [discriminate|].
  destruct i as [|i]; simpl in *.
  - injection Hi as ->. now rewrite Hid.
  - f_equal. now apply IH.
Qed.

Lemma updateRule_run
  (env : Env) (w : World) (ruleId : string) (updates : RuleUpdates)
  (index : nat) (rule : SiteRule) :
  findIndex (fun r => String.eqb (id r) ruleId) (rules w) = Some index ->
  rules w !! index = Some rule ->
  updateRule ruleId updates env w
  = (Normal (Some (spread rule updates)),
     snd (saveRules env
            (set_rules (<[index := spread rule updates]> (rules w)) w))).
Proof.
  intros Hidx Hrule. unfold updateRule. run_service. rewrite Hidx, Hrule.
  rewrite saveRules_run. simpl.
  assert (Hlook : <[index := spread rule updates]> (rules w) !! index
                  = Some (spread rule updates)).
  { apply list_lookup_insert_eq. eapply lookup_lt_Some. exact Hrule. }
  destruct (sync_set_ok env); simpl; now rewrite Hlook.
Qed.

(** X3: when a stored rule has the given id, [updateRule] replaces the
    first such rule by that rule overridden with the fields given, and
    returns the new rule.  The id of the rule, the ids and the order of
    the whole sequence and every other rule are unchanged, and the new
    sequence is saved. *)
Theorem updateRule_found
  (env : Env) (w : World) (ruleId : string) (updates : RuleUpdates)
  (stored : SiteRule) :
  In stored (rules w) -> id stored = ruleId ->
  let w' := snd (updateRule ruleId updates env w) in
  exists index rule,
    rules w !! index = Some rule
    /\ id rule = ruleId
    /\ (forall j r, j < index -> rules w !! j = Some r -> id r <> ruleId)
    /\ fst (updateRule ruleId updates env w) = Normal (Some (spread rule updates))
    /\ id (spread rule updates) = ruleId
    /\ rules w' = <[index := spread rule updates]> (rules w)
    /\ (forall j, j <> index -> rules w' !! j = rules w !! j)
    /\ map id (rules w') = map id (rules w)
    /\ (exists logged, trace w' = trace w ++ StorageSet (rules w') :: logged)
    /\ (sync_set_ok env = true -> storage w' = Some (rules w')).
Proof.
  intros Hin Hid. cbv zeta.
  destruct (findIndex_exists (fun r => String.eqb (id r) ruleId) (rules w) stored Hin)
    as [index Hidx]; [now apply String.eqb_eq|].
  destruct (findIndex_Some _ _ _ Hidx) as (rule & Hrule & Hp & Hbefore).
  apply String.eqb_eq in Hp.
  exists index, rule.
  rewrite (updateRule_run env w ruleId updates index rule Hidx Hrule), saveRules_run.
  split; [exact Hrule|]. split; [exact Hp|].
  split; [intros j r Hj Hr; apply String.eqb_neq; now apply (Hbefore j r)|].
  split; [reflexivity|]. split; [exact Hp|].
  destruct (sync_set_ok env); simpl;
    (split; [reflexivity|]);
    (split; [intros j Hj; apply list_lookup_insert_ne; congruence|]);
    (split; [now apply (map_id_insert _ _ rule)|]).
  - split; [exists []; reflexivity|reflexivity].
  - split; [eexists; rewrite <- app_assoc; reflexivity|discriminate].
Qed.





Lemma filter_length_all {A : Type} (p : A -> bool) (l : list A) :
  (length (List.filter p l) =? length l)%nat = forallb p l.
Proof.
  destruct (forallb p l) eqn:Hall.
  - rewrite (forallb_filter_id p l Hall). apply Nat.eqb_refl.
  - apply Nat.eqb_neq. intros Hlen.
    rewrite (filter_length_forallb p l Hlen) in Hall. discriminate.
Qed.

Lemma filter_idempotent {A : Type} (p : A -> bool) (l : list A) :
  List.filter p (List.filter p l) = List.filter p l.
Proof. apply forallb_filter_id, forallb_filter. Qed.

(** X5: [deleteRule] removes every stored rule with the given id and keeps
    the others in their order; it returns [true], and saves, exactly when
    at least one rule was removed.  Afterwards the id is not found, and a
    second [deleteRule] of the same id returns [false] and changes
    nothing. *)
Theorem deleteRule_removes
  (env env' : Env) (w : World) (ruleId : string) :
  let w' := snd (deleteRule ruleId env w) in
  let others := List.filter (fun r => negb (String.eqb (id r) ruleId)) (rules w) in
  let removed := existsb (fun r => String.eqb (id r) ruleId) (rules w) in
  fst (deleteRule ruleId env w) = Normal removed
  /\ rules w' = others
  /\ (forall r, In r (rules w') <-> In r (rules w) /\ id r <> ruleId)
  /\ fst (getRuleById ruleId env' w') = Normal None
  /\ trace w'
     = trace w
       ++ (if removed
           then StorageSet others
                :: (if sync_set_ok env then []
                    else [ConsoleError "Error saving rules:"])
           else [])
  /\ deleteRule ruleId env' w' = (Normal false, w').
Proof.
  cbv zeta.
  assert (Hremoved : existsb (fun r => String.eqb (id r) ruleId) (rules w)
                     = negb (forallb (fun r => negb (String.eqb (id r) ruleId)) (rules w))).
  { induction (rules w) as [|x l IH]; simpl; [reflexivity|].
    rewrite IH. now destruct (String.eqb (id x) ruleId). }
  assert (Hrun : deleteRule ruleId env w
                 = (Normal (existsb (fun r => String.eqb (id r) ruleId) (rules w)),
                    if existsb (fun r => String.eqb (id r) ruleId) (rules w)
                    then snd (saveRules env
                                (set_rules
                                   (List.filter
                                      (fun r => negb (String.eqb (id r) ruleId))
                                      (rules w)) w))
                    else set_rules
                           (List.filter (fun r => negb (String.eqb (id r) ruleId))
                              (rules w)) w)).
  { unfold deleteRule. run_service. rewrite filter_length_all, Hremoved.
    destruct (forallb _ (rules w)); simpl; [reflexivity|].
    rewrite saveRules_run. reflexivity. }
  assert (Hrules : rules (snd (deleteRule ruleId env w))
                   = List.filter (fun r => negb (String.eqb (id r) ruleId)) (rules w)).
  { rewrite Hrun. simpl. destruct (existsb _ _); [|reflexivity].
    rewrite saveRules_run. destruct (sync_set_ok env); reflexivity. }
  split; [now rewrite Hrun|]. split; [exact Hrules|].
  split.
  { intros r. rewrite Hrules, filter_In. split; intros [Hr Hne]; split; trivial.
    - apply String.eqb_neq. now destruct (String.eqb (id r) ruleId).
    - apply String.eqb_neq in Hne. now rewrite Hne. }
  split.
  { unfold getRuleById. run_service. rewrite Hrules. f_equal.
    apply find_None_iff. intros r Hr. apply filter_In in Hr as [_ Hr].
    now destruct (String.eqb (id r) ruleId). }
  split.
  { rewrite Hrun. simpl. destruct (existsb _ _); simpl.
    - rewrite saveRules_run. destruct (sync_set_ok env); simpl;
        [reflexivity|now rewrite <- app_assoc].
    - now rewrite app_nil_r. }
  remember (snd (deleteRule ruleId env w)) as w' eqn:Hw'. clear Hw' Hrun.
  unfold deleteRule, bind, gets, modify, ret. simpl.
  rewrite Hrules, filter_idempotent, Nat.eqb_refl. simpl.
  unfold set_rules. rewrite <- Hrules. now rewrite world_eta.
Qed.

Lemma reorderRules_rules (env : Env) (w : World) (newOrder : list string) :
  NoDup (map id (rules w)) ->
  rules (snd (reorderRules newOrder env w))
  = listedInOrder (rules w) newOrder ++ missingFrom newOrder (rules w).
Proof.
  intros Hnd. unfold reorderRules. run_service. rewrite saveRules_run.
  rewrite <- (reorder_result _ _ Hnd). destruct (sync_set_ok env); reflexivity.
Qed.

Lemma find_unique_id (rs : list SiteRule) (r : SiteRule) :
  List.NoDup (map id rs) -> In r rs ->
  List.find (fun x => String.eqb (id x) (id r)) rs = Some r.
Proof.
  induction rs as [|x rs IH]; intros Hnd Hin; [contradiction|].
  simpl in *. inversion Hnd as [|? ? Hnotin Hnd']; subst.
  destruct Hin as [->|Hin].
  - now rewrite String.eqb_refl.
  - destruct (String.eqb (id x) (id r)) eqn:E.
    + apply String.eqb_eq in E. exfalso. apply Hnotin. rewrite E. now apply in_map.
    + now apply IH.
Qed.

Lemma listedInOrder_In (rs : list SiteRule) (newOrder : list string) (r : SiteRule) :
  In r (listedInOrder rs newOrder) -> In r rs /\ In (id r) newOrder.
Proof.
  unfold listedInOrder. rewrite in_flat_map. intros (ruleId & Hid & Hr).
  unfold ruleWithId in Hr.
  destruct (List.find _ rs) as [x|] eqn:Hfind; [|contradiction].
  destruct Hr as [<-|[]]. apply find_some in Hfind as [Hin Heq].
  apply String.eqb_eq in Heq. subst. now split.
Qed.

Lemma listedInOrder_complete
  (rs : list SiteRule) (newOrder : list string) (r : SiteRule) :
  List.NoDup (map id rs) -> In r rs -> In (id r) newOrder ->
  In r (listedInOrder rs newOrder).
Proof.
  intros Hnd Hin Hid. unfold listedInOrder. rewrite in_flat_map.
  exists (id r). split; [exact Hid|].
  unfold ruleWithId. rewrite (find_unique_id rs r Hnd Hin). now left.
Qed.

Lemma missingFrom_In (rs : list SiteRule) (newOrder : list string) (r : SiteRule) :
  In r (missingFrom newOrder rs) <-> In r rs /\ ~ In (id r) newOrder.
Proof.
  unfold missingFrom. rewrite filter_In. split; intros [Hin H]; split; trivial.
  - intros Hid. apply negb_true_iff in H.
    assert (Hex : existsb (String.eqb (id r)) newOrder = true).
    { apply existsb_exists. exists (id r). split; [exact Hid|apply String.eqb_refl]. }
    congruence.
  - apply negb_true_iff. destruct (existsb _ newOrder) eqn:Hex; [|reflexivity].
    apply existsb_exists in Hex as (x & Hx & Heq). apply String.eqb_eq in Heq.
    subst. contradiction.
Qed.

Lemma listedInOrder_NoDup (rs : list SiteRule) (newOrder : list string) :
  List.NoDup newOrder -> List.NoDup (listedInOrder rs newOrder).
Proof.
  induction newOrder as [|ruleId newOrder IH]; intros Hnd; simpl; [constructor|].
  inversion Hnd as [|? ? Hnotin Hnd']; subst.
  unfold ruleWithId. destruct (List.find _ rs) as [x|] eqn:Hfind; simpl.
  - constructor; [|now apply IH]. intros Hx.
    apply listedInOrder_In in Hx as [_ Hx].
    apply find_some in Hfind as [_ Heq]. apply String.eqb_eq in Heq.
    apply Hnotin. now rewrite <- Heq.
  - now apply IH.
Qed.

Lemma listedInOrder_own_ids (rs l : list SiteRule) :
  List.NoDup (map id rs) -> incl l rs -> listedInOrder rs (map id l) = l.
Proof.
  intros Hnd. induction l as [|x l IH]; intros Hincl; simpl; [reflexivity|].
  unfold ruleWithId. rewrite (find_unique_id rs x Hnd); [|apply Hincl; now left].
  simpl. f_equal. apply IH. intros y Hy. apply Hincl. now right.
Qed.

Lemma missingFrom_own_ids (rs : list SiteRule) : missingFrom (map id rs) rs = [].
Proof.
  destruct (missingFrom (map id rs) rs) as [|r l] eqn:H; [reflexivity|].
  assert (Hin : In r (missingFrom (map id rs) rs)) by (rewrite H; now left).
  apply missingFrom_In in Hin as [Hin Hnot]. exfalso. apply Hnot. now apply in_map.
Qed.

(** X6: on a store whose rules have pairwise distinct ids, [reorderRules]
    neither loses nor invents a rule, whatever the input; when the input
    names no id twice the new sequence is a permutation of the old one;
    and when the input is the sequence of the stored ids, in their stored
    order, the sequence is unchanged. *)
Theorem reorderRules_permutes (env : Env) (w : World) (newOrder : list string) :
  NoDup (map id (rules w)) ->
  let w' := snd (reorderRules newOrder env w) in
  (forall r, In r (rules w') <-> In r (rules w))
  /\ (NoDup newOrder -> Permutation (rules w') (rules w))
  /\ (newOrder = map id (rules w) -> rules w' = rules w).
Proof.
  intros Hnd. cbv zeta. rewrite (reorderRules_rules env w newOrder Hnd).
  apply NoDup_ListNoDup in Hnd.
  assert (Hmem : forall r,
             In r (listedInOrder (rules w) newOrder ++ missingFrom newOrder (rules w))
             <-> In r (rules w)).
  { intros r. rewrite in_app_iff, missingFrom_In. split.
    - intros [H|[H _]]; [now apply listedInOrder_In in H|exact H].
    - intros Hin. destruct (in_dec string_dec (id r) newOrder) as [Hid|Hid].
      + left. now apply listedInOrder_complete.
      + right. now split. }
  split; [exact Hmem|]. split.
  - intros Hnew. apply NoDup_ListNoDup in Hnew.
    apply Permutation.NoDup_Permutation; [| |exact Hmem].
    + apply List.NoDup_app.
      * now apply listedInOrder_NoDup.
      * apply List.NoDup_filter. now apply NoDup_map_inv with (f := id).
      * intros r Hl Hm. apply listedInOrder_In in Hl as [_ Hl].
        apply missingFrom_In in Hm as [_ Hm]. contradiction.
    + now apply NoDup_map_inv with (f := id).
  - intros ->. rewrite missingFrom_own_ids, app_nil_r.
    apply listedInOrder_own_ids; [exact Hnd|apply incl_refl].
Qed.

(** * Further properties of the matchers *)

Lemma startsWith_iff (url pattern : string) :
  startsWith url pattern = true <-> exists rest, url = (pattern ++ rest)%string.
Proof.
  unfold startsWith. revert url.
  induction pattern as [|a pattern IH]; intros url; simpl.
  - split; [intros _; now exists url|intros _; now destruct url].
  - destruct url as [|b url]; simpl.
    + split; [discriminate|intros [rest H]; discriminate].
    + destruct (Ascii.ascii_dec a b) as [->|Hne].
      * split.
        -- intros H. apply IH in H as [rest ->]. now exists rest.
        -- intros [rest [= ->]]. apply IH. now exists rest.
      * split; [discriminate|intros [rest H]; congruence].
Qed.

Lemma substring_all (s : string) : String.substring 0 (String.length s) s = s.
Proof. induction s as [|a s IH]; simpl; [reflexivity|now rewrite IH]. Qed.

Lemma substring_skip (pre s : string) (n : nat) :
  String.substring (String.length pre) n (pre ++ s)%string = String.substring 0 n s.
Proof. induction pre as [|a pre IH]; simpl; [reflexivity|exact IH]. Qed.

Lemma length_append (s t : string) :
  String.length (s ++ t)%string = String.length s + String.length t.
Proof. induction s as [|a s IH]; simpl; [reflexivity|now rewrite IH]. Qed.

Lemma substring_split (s : string) (m : nat) :
  m <= String.length s ->
  s = (String.substring 0 m s ++ String.substring m (String.length s - m) s)%string.
Proof.
  revert m. induction s as [|a s IH]; intros m Hm; simpl in *.
  - assert (m = 0) as -> by lia. reflexivity.
  - destruct m as [|m]; simpl.
    + now rewrite substring_all.
    + f_equal. apply IH. lia.
Qed.

Lemma endsWith_iff (url pattern : string) :
  endsWith url pattern = true <-> exists pre, url = (pre ++ pattern)%string.
Proof.
  unfold endsWith. split.
  - destruct (String.length pattern <=? String.length url)%nat eqn:Hle;
      [|discriminate].
    apply Nat.leb_le in Hle. intros H. apply String.eqb_eq in H.
    exists (String.substring 0 (String.length url - String.length pattern) url).
    pose proof (substring_split url (String.length url - String.length pattern)
                  ltac:(lia)) as Hsplit.
    replace (String.length url - (String.length url - String.length pattern))
      with (String.length pattern) in Hsplit by lia.
    now rewrite H in Hsplit.
  - intros [pre ->]. rewrite length_append.
    replace (String.length pattern <=? String.length pre + String.length pattern)%nat
      with true by (symmetry; apply Nat.leb_le; lia).
    replace (String.length pre + String.length pattern - String.length pattern)
      with (String.length pre) by lia.
    rewrite substring_skip, substring_all. apply String.eqb_refl.
Qed.

Lemma includes_prefix (url pattern : string) :
  String.prefix pattern url = true -> includes url pattern = true.
Proof. intros H. destruct url; cbn [includes]; now rewrite H. Qed.

Lemma includes_iff (url pattern : string) :
  includes url pattern = true
  <-> exists pre post, url = (pre ++ pattern ++ post)%string.
Proof.
  split.
  - induction url as [|a url IH]; cbn [includes].
    + intros H. destruct pattern as [|c pattern];
        [now exists EmptyString, EmptyString|discriminate H].
    + intros H. apply orb_true_iff in H as [H|H].
      * apply (startsWith_iff (String a url) pattern) in H as [rest H].
        now exists EmptyString, rest.
      * destruct (IH H) as (pre & post & ->). now exists (String a pre), post.
  - intros (pre & post & ->). induction pre as [|a pre IH].
    + apply includes_prefix. apply (startsWith_iff _ pattern). now exists post.
    + change (String a pre ++ pattern ++ post)%string
        with (String a (pre ++ pattern ++ post)%string).
      cbn [includes]. rewrite IH. apply orb_true_r.
Qed.

(** X7: what the four positive string matchers decide.  [EqualTo] matches
    when the URL is the pattern; [StartsWith] when the URL is the pattern
    followed by something; [EndsWith] when it is something followed by the
    pattern; [Contains] when the pattern occurs in it, between a part
    before and a part after. *)
Theorem string_matchers_meaning
  (RegExp_test : string -> string -> Completion bool) (url pattern : string) :
  (siteRulesMatcher RegExp_test EqualTo url pattern = Normal true <-> url = pattern)
  /\ (siteRulesMatcher RegExp_test StartsWith url pattern = Normal true
      <-> exists rest, url = (pattern ++ rest)%string)
  /\ (siteRulesMatcher RegExp_test EndsWith url pattern = Normal true
      <-> exists pre, url = (pre ++ pattern)%string)
  /\ (siteRulesMatcher RegExp_test Contains url pattern = Normal true
      <-> exists pre post, url = (pre ++ pattern ++ post)%string).
Proof.
  simpl. repeat split.
  - intros [= H]. now apply String.eqb_eq.
  - intros ->. unfold strictEquals. now rewrite String.eqb_refl.
  - intros [= H]. now apply startsWith_iff.
  - intros H. f_equal. now apply startsWith_iff.
  - intros [= H]. now apply endsWith_iff.
  - intros H. f_equal. now apply endsWith_iff.
  - intros [= H]. now apply includes_iff.
  - intros H. f_equal. now apply includes_iff.
Qed.

Lemma append_empty_r (s : string) : (s ++ "")%string = s.
Proof. induction s as [|a s IH]; simpl; [reflexivity|now rewrite IH]. Qed.

(** X8: on the same URL and pattern, a match of [EqualTo] is a match of
    [StartsWith] and of [EndsWith], and a match of [StartsWith] or of
    [EndsWith] is a match of [Contains].  The empty pattern is matched by
    [StartsWith], [EndsWith] and [Contains] on every URL, so that their
    negative types never match it. *)
Theorem string_matchers_order
  (RegExp_test : string -> string -> Completion bool) (url pattern : string) :
  let matcher := siteRulesMatcher RegExp_test in
  (matcher EqualTo url pattern = Normal true ->
   matcher StartsWith url pattern = Normal true
   /\ matcher EndsWith url pattern = Normal true)
  /\ (matcher StartsWith url pattern = Normal true
      \/ matcher EndsWith url pattern = Normal true ->
      matcher Contains url pattern = Normal true)
  /\ (matcher StartsWith url "" = Normal true
      /\ matcher EndsWith url "" = Normal true
      /\ matcher Contains url "" = Normal true
      /\ matcher NotStartsWith url "" = Normal false
      /\ matcher NotEndsWith url "" = Normal false
      /\ matcher NotContains url "" = Normal false).
Proof.
  cbv zeta.
  assert (Hs : startsWith url "" = true)
    by (apply startsWith_iff; now exists url).
  assert (He : endsWith url "" = true)
    by (apply endsWith_iff; exists url; now rewrite append_empty_r).
  assert (Hc : includes url "" = true)
    by (apply includes_iff; now exists EmptyString, url).
  simpl. split; [|split].
  - intros [= H]. apply String.eqb_eq in H. subst url. split; f_equal.
    + apply startsWith_iff. exists EmptyString. now rewrite append_empty_r.
    + apply endsWith_iff. now exists EmptyString.
  - intros [[= H]|[= H]]; f_equal; apply includes_iff.
    + apply startsWith_iff in H as [rest ->]. now exists EmptyString, rest.
    + apply endsWith_iff in H as [pre ->]. exists pre, EmptyString.
      now rewrite append_empty_r.
  - now rewrite Hs, He, Hc.
Qed.

(** * Further properties of the enforcement engine *)

Lemma limitRuleAt_set_storage (i : nat) (stored : option (list SiteRule)) (w : World) :
  limitRuleAt i (set_storage stored w) = limitRuleAt i w.
Proof. reflexivity. Qed.

(** X9: once the rules are loaded, [applyRule] works on the cache alone.
    Whatever another context has written to the storage since the load,
    the outcome, the cache, the calls made and the timers are the same;
    and the stored value is either left as that context wrote it or, when
    a Limit rule was enforced and the write resolved, overwritten with the
    cache. *)
Theorem applyRule_uses_the_cache
  (RegExp_test : string -> string -> Completion bool)
  (env : Env) (w : World) (stored : option (list SiteRule)) :
  rulesLoaded w = true ->
  let r := applyRule RegExp_test env w in
  let r' := applyRule RegExp_test env (set_storage stored w) in
  fst r' = fst r
  /\ rules (snd r') = rules (snd r)
  /\ trace (snd r') = trace (snd r)
  /\ intervals (snd r') = intervals (snd r)
  /\ limitRuleUpdateIntervalRunning (snd r')
     = limitRuleUpdateIntervalRunning (snd r)
  /\ (storage (snd r') = stored \/ storage (snd r') = Some (rules (snd r'))).
Proof.
  intros Hloaded. cbv zeta.
  rewrite (applyRule_run RegExp_test env w).
  rewrite (applyRule_run RegExp_test env (set_storage stored w)).
  cbv zeta. unfold ensureLoaded.
  change (rulesLoaded (set_storage stored w)) with (rulesLoaded w).
  rewrite Hloaded.
  change (rules (set_storage stored w)) with (rules w).
  destruct (findMatch RegExp_test (href env) (rules w) 0) as [[[i rule]|]|e];
    try (simpl; repeat split; now left).
  unfold applyMatchedRule.
  destruct (action_type (action rule)); try (simpl; repeat split; now left).
  destruct (limitRuleAt i w) as [[rule' a]|] eqn:Hat.
  - rewrite (applyLimitRule_run env w i rule' a (href env) Hat).
    rewrite (applyLimitRule_run env (set_storage stored w) i rule' a (href env) Hat).
    rewrite (updateLimitRuleUsage_run env w i rule' a Hat).
    rewrite (updateLimitRuleUsage_run env (set_storage stored w) i rule' a Hat).
    rewrite !saveRules_run. simpl.
    destruct (sync_set_ok env); simpl;
      destruct (uptimeSec env <? _)%float; simpl;
      try (repeat split; (now left) || (now right));
      destruct (allowedMinutes _ <=? _)%float; simpl;
      try (repeat split; (now left) || (now right));
      destruct (limitRuleUpdateIntervalRunning w); simpl;
      repeat split; (now left) || (now right).
  - unfold applyLimitRule. run_service.
    rewrite limitRuleAt_set_storage, Hat. repeat split. now left.
Qed.

(** * The scheduler, the detection of address changes and the content script *)

Lemma runTasks_app {E St : Type} (ts ts' : list (Task E St)) (env : E) (s : St) :
  runTasks (ts ++ ts') env s
  = (fst (runTasks ts env s) ++ fst (runTasks ts' env (snd (runTasks ts env s))),
     snd (runTasks ts' env (snd (runTasks ts env s)))).
Proof.
  revert s. induction ts as [|task ts IH]; intros s; simpl.
  - now destruct (runTasks ts' env s).
  - destruct (task env s) as [[u|e] s']; rewrite IH; reflexivity.
Qed.

(** X10: [addTask] returns the position of the new task, counted from 1,
    and queues it last.  At a tick every queued task is called once, in
    the order of the queue and on the state the tasks before it left,
    whether or not one of them threw: the exception of a task is logged
    and the tasks queued after it run all the same. *)
Theorem scheduler_runs_every_task
  {E St : Type} (before after : list (Task E St)) (task : Task E St)
  (env : E) (s : St) :
  let queued := snd (addTask task (mkSchedulerService before)) in
  let r1 := runTasks before env s in
  let r2 := task env (snd r1) in
  let r3 := runTasks after env (snd r2) in
  let logged := match fst r2 with Throw e => [e] | Normal _ => [] end in
  fst (addTask task (mkSchedulerService before)) = S (length before)
  /\ schedulerTick queued env s = (fst r1 ++ logged, snd r2)
  /\ schedulerTick (mkSchedulerService (before ++ task :: after)) env s
     = (fst r1 ++ logged ++ fst r3, snd r3).
Proof.
  cbv zeta. unfold schedulerTick, addTask. simpl.
  split; [rewrite length_app; simpl; lia|].
  rewrite !runTasks_app. simpl.
  destruct (task env (snd (runTasks before env s))) as [[u|e] s2]; simpl;
    split; reflexivity.
Qed.

Lemma detectUrlChange_last (currentUrl : string) (last : option string) :
  fst (detectUrlChange currentUrl last) = Some currentUrl.
Proof.
  unfold detectUrlChange. destruct last as [l|]; [|reflexivity].
  destruct (String.eqb currentUrl l) eqn:E; [|reflexivity].
  apply String.eqb_eq in E. now subst.
Qed.

(** X11: the events of the detection task.  No event carries the address
    of the event before it, nor does the first one carry the address last
    seen; the first tick of a page always dispatches; and a tick at which
    the address is the one last seen dispatches nothing. *)
Theorem urlChanged_events_differ (last : option string) (observed : list string) :
  eachDiffersFromPrevious last (dispatched last observed)
  /\ (forall url rest, dispatched None (url :: rest)
                       = url :: dispatched (Some url) rest)
  /\ (forall url rest, dispatched (Some url) (url :: rest)
                       = dispatched (Some url) rest).
Proof.
  split; [|split].
  - revert last. induction observed as [|url rest IH]; intros last; simpl; [trivial|].
    unfold detectUrlChange. destruct last as [l|].
    + destruct (String.eqb url l) eqn:E.
      * apply IH.
      * simpl. split; [|apply IH]. apply String.eqb_neq in E. congruence.
    + simpl. split; [discriminate|apply IH].
  - reflexivity.
  - intros url rest. simpl. now rewrite String.eqb_refl.
Qed.

Lemma last_cons_default {A : Type} (l : list A) (x d : A) :
  List.last (x :: l) d = List.last l x.
Proof.
  revert x d. induction l as [|y l IH]; intros x d; [reflexivity|].
  change (List.last (x :: y :: l) d) with (List.last (y :: l) d).
  now rewrite !IH.
Qed.

Lemma contentTick_run
  (RegExp_test : string -> string -> Completion bool) (env : Env) (page : Page) :
  schedulerTick (contentScheduler RegExp_test) env page
  = ([], snd (contentTask RegExp_test env page)).
Proof.
  unfold schedulerTick, contentScheduler, addTask. simpl.
  unfold contentTask. destruct (detectUrlChange _ _) as [l [u|]]; reflexivity.
Qed.

(** X12: the content script applies the rules once per change of address.
    After any sequence of ticks, the state of the rules service is the one
    reached by handling a navigation event at each tick whose address
    differs from the address of the tick before, and at no other tick; the
    addresses of these events are the ones the detection task dispatches;
    and the scheduler never has an exception to log. *)
Theorem content_script_applies_rules_on_changes
  (RegExp_test : string -> string -> Completion bool)
  (last : option string) (w : World) (ticks : list Env) :
  context (runPage RegExp_test (mkPage last w) ticks)
  = run RegExp_test w (map UrlChanged (addressChanges last ticks))
  /\ map href (addressChanges last ticks) = dispatched last (map href ticks)
  /\ lastUrl (runPage RegExp_test (mkPage last w) ticks)
     = List.last (map (fun env => Some (href env)) ticks) last
  /\ (forall env page,
        fst (schedulerTick (contentScheduler RegExp_test) env page) = []).
Proof.
  split; [|split; [|split]].
  - unfold runPage, run. revert last w.
    induction ticks as [|env ticks IH]; intros last w; simpl; [reflexivity|].
    rewrite contentTick_run. unfold contentTask, detectUrlChange. simpl.
    destruct last as [l|]; [destruct (String.eqb (href env) l) eqn:E|];
      simpl; rewrite IH; reflexivity.
  - revert last. induction ticks as [|env ticks IH]; intros last; simpl;
      [reflexivity|].
    unfold detectUrlChange.
    destruct last as [l|]; [destruct (String.eqb (href env) l) eqn:E|];
      simpl; now rewrite IH.
  - unfold runPage. revert last w.
    induction ticks as [|env ticks IH]; intros last w; [reflexivity|].
    cbn [fold_left map]. rewrite contentTick_run.
    change (snd ([] : list Exception, snd (contentTask RegExp_test env (mkPage last w))))
      with (snd (contentTask RegExp_test env (mkPage last w))).
    assert (Hnext : exists w1, snd (contentTask RegExp_test env (mkPage last w))
                               = mkPage (Some (href env)) w1).
    { unfold contentTask, detectUrlChange. cbn [lastUrl context].
      destruct last as [l|]; [destruct (String.eqb (href env) l) eqn:E|];
        cbn [snd]; try (eexists; reflexivity).
      apply String.eqb_eq in E. rewrite <- E. eexists; reflexivity. }
    destruct Hnext as [w1 ->]. rewrite IH. symmetry. apply last_cons_default.
  - intros env page. now rewrite contentTick_run.
Qed.

(** * Installation *)

(** X13: the [onInstalled] listener never overwrites what it finds: a
    stored sequence of rules that is not empty and stored popup settings
    are left as they are, whichever calls fail.  When the listener runs
    to its end, popup settings are stored and the stored sequence of rules
    is not empty; it is the default rule alone when none or an empty one
    was stored.  The startup time is the time of the installation as soon
    as its write resolves. *)
Theorem onInstalled_seeds_without_overwriting
  (a : InstallAnswers) (st : ExtensionStorage) :
  let st' := snd (onInstalled a st) in
  (forall rule others,
      stored_siteRules st = Some (rule :: others) ->
      stored_siteRules st' = Some (rule :: others))
  /\ (forall settings,
        stored_popupSettings st = Some settings ->
        stored_popupSettings st' = Some settings)
  /\ (fst (onInstalled a st) = Resolved ->
      (exists settings, stored_popupSettings st' = Some settings)
      /\ (exists rule others, stored_siteRules st' = Some (rule :: others))
      /\ (stored_siteRules st = None \/ stored_siteRules st = Some [] ->
          stored_siteRules st' = Some [defaultRule (id_stamp a)]))
  /\ (local_set_ok a = true -> stored_startupTime st' = Some (installed_at a)).
Proof.
  cbv zeta. unfold onInstalled.
  destruct st as [startup settings rs].
  destruct (local_set_ok a), (settings_get_ok a), settings as [p|],
    (settings_set_ok a), (rules_get_ok a), rs as [[|r others]|], (rules_set_ok a);
    simpl;
    repeat match goal with
           | |- _ /\ _ => split
           | |- forall _, _ => intro
           | H : _ \/ _ |- _ => destruct H
           end;
    try discriminate; try congruence; eauto.
Qed.

(** X14: after an installation that found no rules and ran to its end, a
    page that opens on any address containing [youtube.com/shorts] is
    redirected, at the first tick, to the notice of the block, which
    carries that address and the title of the default rule. *)
Theorem fresh_install_blocks_shorts
  (RegExp_test : string -> string -> Completion bool)
  (a : InstallAnswers) (st : ExtensionStorage) (env : Env) :
  stored_siteRules st = None \/ stored_siteRules st = Some [] ->
  fst (onInstalled a st) = Resolved ->
  sync_get_ok env = true ->
  includes (href env) "youtube.com/shorts" = true ->
  let page :=
    mkPage None (initialWorld (stored_siteRules (snd (onInstalled a st)))) in
  trace (context (runPage RegExp_test page [env]))
  = [StorageGet;
     SetLocation
       (alertUrl (mkAlertParams "block" (href env) "Block YouTube Shorts" None))].
Proof.
  intros Hnone Hdone Hget Hshorts. cbv zeta.
  assert (Hrules : stored_siteRules (snd (onInstalled a st))
                   = Some [defaultRule (id_stamp a)]).
  { unfold onInstalled in *. destruct st as [startup settings rs]. simpl in Hnone.
    destruct (local_set_ok a), (settings_get_ok a), settings as [p|],
      (settings_set_ok a), (rules_get_ok a), rs as [[|r others]|], (rules_set_ok a);
      simpl in *; try discriminate; try reflexivity;
      destruct Hnone; discriminate. }
  rewrite Hrules. unfold runPage. cbn [fold_left]. rewrite contentTick_run.
  unfold contentTask, detectUrlChange. cbn [lastUrl context snd].
  unfold applyRule, loadRules. run_service. rewrite Hget. simpl.
  unfold ruleMatchWithUrl. simpl. rewrite Hshorts. reflexivity.
Qed.

(** * The countdown *)

(** X15: for a remaining time of [ms] milliseconds that is an integer
    with [0 <= ms < 2 ^ 53], the hours,
    minutes and seconds [formatCountdown] shows are the whole seconds of
    [ms] split in base sixty: minutes and seconds are below 60 and
    [((hours * 60 + minutes) * 60 + seconds) * 1000] is [ms] less its
    milliseconds.  Below one minute only the seconds are shown, below one
    hour the minutes and the seconds, and from one hour on all three. *)
Theorem formatCountdown_parts (ms : Z) :
  (0 <= ms < 2 ^ 53)%Z ->
  let '(hours, minutes, seconds) := countdownParts ms in
  (0 <= hours < 2 ^ 53)%Z
  /\ (0 <= minutes < 60)%Z
  /\ (0 <= seconds < 60)%Z
  /\ (((hours * 60 + minutes) * 60 + seconds) * 1000 = ms - ms mod 1000)%Z
  /\ formatCountdown ms
     = (if (ms <? 60000)%Z then showNumber seconds ++ "s"
        else if (ms <? 3600000)%Z
             then showNumber minutes ++ "m " ++ showNumber seconds ++ "s"
             else showNumber hours ++ "h " ++ showNumber minutes ++ "m "
                  ++ showNumber seconds ++ "s")%string.
Proof.
  intros [Hms Hsafe]. unfold formatCountdown, countdownParts.
  assert (Hts : (0 <= ms / 1000)%Z) by (apply Z.div_pos; lia).
  rewrite !Z.rem_mod_nonneg by lia.
  set (ts := (ms / 1000)%Z) in *.
  assert (Hdiv : (ms = 1000 * ts + ms mod 1000)%Z) by (apply Z.div_mod; lia).
  assert (Hmod : (0 <= ms mod 1000 < 1000)%Z) by (apply Z.mod_pos_bound; lia).
  assert (Hh : (ts = 3600 * (ts / 3600) + ts mod 3600)%Z) by (apply Z.div_mod; lia).
  assert (Hhm : (0 <= ts mod 3600 < 3600)%Z) by (apply Z.mod_pos_bound; lia).
  assert (Hm : (ts mod 3600 = 60 * (ts mod 3600 / 60) + (ts mod 3600) mod 60)%Z)
    by (apply Z.div_mod; lia).
  assert (Hs : (0 <= (ts mod 3600) mod 60 < 60)%Z) by (apply Z.mod_pos_bound; lia).
  assert (Hss : ((ts mod 3600) mod 60 = ts mod 60)%Z).
  { apply Z.mod_mod_divide. exists 60%Z. lia. }
  assert (Hhours : (0 <= ts / 3600)%Z) by (apply Z.div_pos; lia).
  assert (Hmins : (0 <= ts mod 3600 / 60 < 60)%Z).
  { split; [apply Z.div_pos; lia|apply Z.div_lt_upper_bound; lia]. }
  split; [split; [exact Hhours|lia]|]. split; [exact Hmins|].
  split; [rewrite <- Hss; exact Hs|].
  split; [rewrite <- Hss; lia|].
  destruct (0 <? ts / 3600)%Z eqn:H1.
  - apply Z.ltb_lt in H1.
    replace (ms <? 60000)%Z with false by (symmetry; apply Z.ltb_ge; lia).
    replace (ms <? 3600000)%Z with false by (symmetry; apply Z.ltb_ge; lia).
    reflexivity.
  - apply Z.ltb_ge in H1.
    destruct (0 <? ts mod 3600 / 60)%Z eqn:H2.
    + apply Z.ltb_lt in H2.
      replace (ms <? 60000)%Z with false by (symmetry; apply Z.ltb_ge; lia).
      replace (ms <? 3600000)%Z with true by (symmetry; apply Z.ltb_lt; lia).
      reflexivity.
    + apply Z.ltb_ge in H2.
      replace (ms <? 60000)%Z with true by (symmetry; apply Z.ltb_lt; lia).
      reflexivity.
Qed.

(** * Loading, the cache and the monitor *)

(** X16: the callback of the monitor never trusts the cache: it reloads
    the rules first, so what it does is the same whatever the cache held
    when the timer fired. *)
Theorem monitorCallback_reloads
  (RegExp_test : string -> string -> Completion bool)
  (m : Monitor) (env : Env) (w : World) (cached : list SiteRule) :
  monitorCallback RegExp_test m env (set_rules cached w)
  = monitorCallback RegExp_test m env w.
Proof.
  rewrite !monitorCallback_run. cbv zeta.
  assert (Hload : snd (loadRules env (set_rules cached w)) = snd (loadRules env w)).
  { unfold loadRules. run_service. destruct (sync_get_ok env); reflexivity. }
  now rewrite Hload.
Qed.

(** X17: a failed read is never retried by [applyRule].  [loadRules]
    marks the rules as loaded before it reads, so when the read fails the
    cache is left empty and marked as loaded; from then on [applyRule]
    does nothing at all, whatever the storage holds and whatever address
    is visited.  In particular a first navigation whose read fails
    enforces nothing and leaves the page in that state. *)
Theorem failed_load_is_not_retried
  (RegExp_test : string -> string -> Completion bool) (env : Env) (w : World) :
  sync_get_ok env = false ->
  let w' := snd (loadRules env w) in
  rules w' = [] /\ rulesLoaded w' = true
  /\ (forall env' stored,
        applyRule RegExp_test env' (set_storage stored w')
        = (Normal tt, set_storage stored w'))
  /\ (rulesLoaded w = false -> applyRule RegExp_test env w = (Normal tt, w')).
Proof.
  intros Hget. cbv zeta.
  assert (Hw' : snd (loadRules env w)
                = set_rules [] (emit (ConsoleError "Error loading rules:")
                                  (emit StorageGet (set_rulesLoaded true w)))).
  { unfold loadRules. run_service. now rewrite Hget. }
  split; [now rewrite Hw'|]. split; [now rewrite Hw'|]. split.
  - intros env' stored. rewrite applyRule_run. cbv zeta. unfold ensureLoaded.
    rewrite Hw'. reflexivity.
  - intros Hnot. rewrite applyRule_run. cbv zeta. unfold ensureLoaded.
    rewrite Hnot, Hw'. reflexivity.
Qed.



(** * The further properties on sample inputs *)

Lemma addRule_then_getRuleById_witness :
  let w := loadedWorld [ruleA; ruleB] in
  let env := browserAt shortsUrl 1700000001000 3600 in
  let data := mkRuleData "Block TikTok" "tiktok.com" Contains BlockAction true in
  (forall r, In r (rules w) -> id r <> "c")
  /\ rules (snd (addRule "c" data env w)) = [ruleA; ruleB; ruleC]
  /\ fst (getRuleById "c" env (snd (addRule "c" data env w))) = Normal (Some ruleC).
Proof.
  cbv zeta.
  assert (Hfresh : forall r, In r (rules (loadedWorld [ruleA; ruleB])) -> id r <> "c").
  { intros r [<-|[<-|[]]]; discriminate. }
  split; [exact Hfresh|].
  destruct (addRule_then_getRuleById
              (browserAt shortsUrl 1700000001000 3600)
              (browserAt shortsUrl 1700000001000 3600)
              (loadedWorld [ruleA; ruleB]) "c"
              (mkRuleData "Block TikTok" "tiktok.com" Contains BlockAction true)
              Hfresh) as (_ & Hrules & Hget & _).
  split; [exact Hrules|exact Hget].
Defined.

Lemma saveRules_then_loadRules_witness :
  let w := set_rules [ruleA; ruleB] (initialWorld None) in
  let online := browserAt shortsUrl 1700000001000 3600 in
  let offline := offlineBrowserAt shortsUrl 1700000001000 3600 in
  sync_get_ok online = true
  /\ fst (loadRules online (snd (saveRules online w))) = Normal [ruleA; ruleB]
  /\ fst (loadRules online (snd (saveRules offline w))) = Normal [].
Proof.
  cbv zeta. split; [reflexivity|]. split.
  - exact (proj1 (saveRules_then_loadRules
                    (browserAt shortsUrl 1700000001000 3600)
                    (browserAt shortsUrl 1700000001000 3600)
                    (set_rules [ruleA; ruleB] (initialWorld None)) eq_refl)).
  - exact (proj1 (saveRules_then_loadRules
                    (offlineBrowserAt shortsUrl 1700000001000 3600)
                    (browserAt shortsUrl 1700000001000 3600)
                    (set_rules [ruleA; ruleB] (initialWorld None)) eq_refl)).
Defined.

Lemma updateRule_found_witness :
  let w := loadedWorld [ruleA; ruleB] in
  let env := browserAt shortsUrl 1700000001000 3600 in
  let updates := mkRuleUpdates (Some "Instagram") None None None None in
  In ruleB (rules w) /\ id ruleB = "b"
  /\ map id (rules (snd (updateRule "b" updates env w))) = ["a"; "b"]
  /\ exists rule,
       fst (updateRule "b" updates env w) = Normal (Some rule) /\ id rule = "b".
Proof.
  cbv zeta.
  assert (Hin : In ruleB (rules (loadedWorld [ruleA; ruleB]))) by (right; now left).
  split; [exact Hin|]. split; [reflexivity|].
  destruct (updateRule_found (browserAt shortsUrl 1700000001000 3600)
              (loadedWorld [ruleA; ruleB]) "b"
              (mkRuleUpdates (Some "Instagram") None None None None)
              ruleB Hin eq_refl)
    as (index & rule & _ & _ & _ & Hfst & Hid & _ & _ & Hids & _).
  split; [exact Hids|]. eexists. split; [exact Hfst|exact Hid].
Defined.


Lemma reorderRules_permutes_witness :
  let w := loadedWorld [ruleA; ruleB; ruleC] in
  let env := browserAt shortsUrl 1700000001000 3600 in
  NoDup (map id (rules w))
  /\ NoDup ["c"; "a"]
  /\ Permutation (rules (snd (reorderRules ["c"; "a"] env w))) [ruleA; ruleB; ruleC]
  /\ rules (snd (reorderRules ["a"; "b"; "c"] env w)) = [ruleA; ruleB; ruleC].
Proof.
  cbv zeta.
  assert (Hnd : NoDup (map id (rules (loadedWorld [ruleA; ruleB; ruleC])))).
  { apply NoDup_ListNoDup. simpl. repeat constructor; simpl; intuition discriminate. }
  assert (Hnew : NoDup ["c"; "a"]).
  { apply NoDup_ListNoDup. repeat constructor; simpl; intuition discriminate. }
  split; [exact Hnd|]. split; [exact Hnew|]. split.
  - destruct (reorderRules_permutes (browserAt shortsUrl 1700000001000 3600)
                (loadedWorld [ruleA; ruleB; ruleC]) ["c"; "a"] Hnd)
      as (_ & Hperm & _).
    exact (Hperm Hnew).
  - destruct (reorderRules_permutes (browserAt shortsUrl 1700000001000 3600)
                (loadedWorld [ruleA; ruleB; ruleC]) ["a"; "b"; "c"] Hnd)
      as (_ & _ & Hsame).
    exact (Hsame eq_refl).
Defined.

Lemma applyRule_uses_the_cache_witness :
  let w := loadedWorld [blockShortsRule] in
  let env := browserAt shortsUrl 1700000001000 3600 in
  rulesLoaded w = true
  /\ trace (snd (applyRule literal_RegExp_test env (set_storage (Some []) w)))
     = trace (snd (applyRule literal_RegExp_test env w))
  /\ rules (snd (applyRule literal_RegExp_test env (set_storage (Some []) w)))
     = rules (snd (applyRule literal_RegExp_test env w)).
Proof.
  cbv zeta. split; [reflexivity|].
  destruct (applyRule_uses_the_cache literal_RegExp_test
              (browserAt shortsUrl 1700000001000 3600)
              (loadedWorld [blockShortsRule]) (Some []) eq_refl)
    as (_ & Hrules & Htrace & _).
  split; [exact Htrace|exact Hrules].
Defined.

Lemma fresh_install_blocks_shorts_witness :
  let a := installingAt 1700000000000 "1700000000000" in
  let env := browserAt shortsUrl 1700000001000 3600 in
  (stored_siteRules emptyStorage = None \/ stored_siteRules emptyStorage = Some [])
  /\ fst (onInstalled a emptyStorage) = Resolved
  /\ sync_get_ok env = true
  /\ includes (href env) "youtube.com/shorts" = true
  /\ trace (context
              (runPage literal_RegExp_test
                 (mkPage None
                    (initialWorld (stored_siteRules (snd (onInstalled a emptyStorage)))))
                 [env]))
     = [StorageGet;
        SetLocation
          (alertUrl (mkAlertParams "block" shortsUrl "Block YouTube Shorts" None))].
Proof.
  cbv zeta. split; [now left|]. split; [reflexivity|]. split; [reflexivity|].
  split; [reflexivity|].
  exact (fresh_install_blocks_shorts literal_RegExp_test
           (installingAt 1700000000000 "1700000000000") emptyStorage
           (browserAt shortsUrl 1700000001000 3600)
           (or_introl eq_refl) eq_refl eq_refl eq_refl).
Defined.

Lemma formatCountdown_parts_witness :
  (0 <= 3725999 < 2 ^ 53)%Z
  /\ countdownParts 3725999 = (1, 2, 5)%Z
  /\ formatCountdown 3725999 = "1h 2m 5s"
  /\ formatCountdown 999 = "0s".
Proof.
  assert (H0 : (0 <= 3725999 < 2 ^ 53)%Z) by (split; [discriminate|reflexivity]).
  split; [exact H0|]. split; [reflexivity|].
  pose proof (formatCountdown_parts 3725999 H0) as H.
  cbv beta iota zeta delta [countdownParts] in H.
  destruct H as (_ & _ & _ & _ & Hfmt).
  split; [rewrite Hfmt; reflexivity|reflexivity].
Defined.

Lemma failed_load_is_not_retried_witness :
  let offline := offlineBrowserAt shortsUrl 1700000001000 3600 in
  let online := browserAt shortsUrl 1700000002000 3601 in
  let w := initialWorld (Some [blockShortsRule]) in
  sync_get_ok offline = false
  /\ rulesLoaded w = false
  /\ applyRule literal_RegExp_test offline w = (Normal tt, snd (loadRules offline w))
  /\ applyRule literal_RegExp_test online (snd (loadRules offline w))
     = (Normal tt, snd (loadRules offline w)).
Proof.
  cbv zeta. split; [reflexivity|]. split; [reflexivity|].
  destruct (failed_load_is_not_retried literal_RegExp_test
              (offlineBrowserAt shortsUrl 1700000001000 3600)
              (initialWorld (Some [blockShortsRule])) eq_refl)
    as (_ & _ & Hlater & Hfirst).
  split; [exact (Hfirst eq_refl)|].
  exact (Hlater (browserAt shortsUrl 1700000002000 3601)
           (Some [blockShortsRule])).
Defined.


(** X19: whatever navigation events, timer runs and writes of other
    contexts a page context goes through from its start, at most one
    timer of the monitor is live in it, and the flag is set whenever one
    is. *)
Theorem one_monitor_per_page
  (RegExp_test : string -> string -> Completion bool)
  (stored : option (list SiteRule)) (events : list Event) :
  let w := run RegExp_test (initialWorld stored) events in
  length (intervals w) <= 1
  /\ (intervals w <> [] -> limitRuleUpdateIntervalRunning w = true).
Proof.
  cbv zeta. change (oneMonitor (run RegExp_test (initialWorld stored) events)).
  assert (H0 : oneMonitor (initialWorld stored)).
  { split; [simpl; lia|intros H; now contradiction H]. }
  unfold run. revert H0. generalize (initialWorld stored).
  induction events as [|e events IH]; intros w Hw; [exact Hw|].
  apply IH. now apply step_oneMonitor.
Qed.

